(** * senlin/engine/scheduler.py: the action execution scheduler

    A shallow embedding of the scheduler module.  The module is glue code
    around three collaborators that live outside of it: the durable store
    ([db_api]), the green-thread library ([eventlet], [threadgroup]) and the
    action objects ([action_mod]).  Calls to these collaborators are
    modelled as operations of an abstract environment, and every call is
    recorded in a trace of events, so that statements such as "the lock is
    released" or "no status is written" are statements about the calls the
    code makes.  Logging is incidental and is left out. *)

From stdpp Require Import base gmap strings list fin_maps.
From Stdlib Require Import ZArith Lia.

Open Scope Z_scope.

(** ** Python values and exceptions *)

(** What a function of the module hands back to its caller: [True],
    [False], or [None] when control falls off the end of the body. *)
Inductive pyval : Type :=
| PyNone
| PyBool (b : bool).

Inductive exn : Type :=
| TypeError
| KeyError (key : string)
| AttributeError.

(** Result of running a piece of code: a value, a raised exception, or
    the loop bound of the model was reached before the code returned. *)
Inductive outcome (A : Type) : Type :=
| Ret (a : A)
| Raise (e : exn)
| OutOfFuel.
Arguments Ret {A} a.
Arguments Raise {A} e.
Arguments OutOfFuel {A}.

(** ** Constants of the module (lines 29-33) *)

Definition ACTION_CANCEL : string := "cancel".
Definition ACTION_SUSPEND : string := "suspend".
Definition ACTION_RESUME : string := "resume".
Definition ACTION_TIMEOUT : string := "timeout".
Definition ACTION_CONTROL_REQUEST : list string :=
  [ACTION_CANCEL; ACTION_SUSPEND; ACTION_RESUME; ACTION_TIMEOUT].

(** ** Actions *)

(** Modelled from the spec: the outcome codes [RES_OK], [RES_ERROR],
    [RES_RETRY], [RES_CANCEL], [RES_TIMEOUT] of the [Action] class of
    senlin/engine/actions/base.py; a step returns one of these five. *)
Inductive Result : Type :=
| RES_OK
| RES_ERROR
| RES_RETRY
| RES_CANCEL
| RES_TIMEOUT.

Global Instance Result_eq_dec : EqDecision Result.
Proof. solve_decision. Defined.

(** The context of the rpc request, opaque to the module. *)
Definition Ctx : Type := string.

(** Modelled from the spec: the fields of an [Action] object that the
    scheduler reads or writes.  Times are in clock ticks. *)
Record Action : Type := mkAction {
  id : string;
  context : Ctx;
  start_time : Z;
  timeout : option Z
}.

Definition set_start_time (action : Action) (t : Z) : Action :=
  {| id := id action; context := context action;
     start_time := t; timeout := timeout action |}.

(** ** Calls to the collaborators *)

Inductive event : Type :=
| EvExecute (action_id : string)
| EvSleep (seconds : Z)
| EvLoad (ctx : Ctx) (action_id : string)
| EvAcquire (ctx : Ctx) (action_id engine_id : string) (timestamp : Z)
| EvRelease (ctx : Ctx) (action_id engine_id : string)
| EvMarkFailed (ctx : Ctx) (action_id : string) (timestamp : Z)
| EvMarkSucceeded (ctx : Ctx) (action_id : string) (timestamp : Z)
| EvMarkCancelled (ctx : Ctx) (action_id : string) (timestamp : Z)
| EvControl (ctx : Ctx) (action_id : string) (flag : string)
| EvControlCheck (ctx : Ctx) (action_id : string)
| EvStartActionThread (ctx : Ctx) (action_id : string).

Global Instance event_eq_dec : EqDecision event.
Proof. solve_decision. Defined.

Definition is_sleep (e : event) : bool :=
  match e with EvSleep _ => true | _ => false end.

Definition is_mark (e : event) : bool :=
  match e with
  | EvMarkFailed _ _ _ | EvMarkSucceeded _ _ _ | EvMarkCancelled _ _ _ => true
  | _ => false
  end.

Definition is_spawn (e : event) : bool :=
  match e with EvStartActionThread _ _ => true | _ => false end.

Definition is_execute (e : event) : bool :=
  match e with EvExecute _ => true | _ => false end.

(** The environment of the module: what the clock, the action's step, the
    store and the green-thread hub answer, over a state [W] of the world
    outside the module. *)
Class Env (W : Type) : Type := {
  (* time.time *)
  env_wallclock : W → Z;
  (* action.execute() *)
  env_execute : Action → W → Result * W;
  (* action_mod.Action.load *)
  env_load : Ctx → string → W → Action;
  (* db_api.action_acquire *)
  env_acquire : Ctx → string → string → Z → W → bool * W;
  (* db_api.action_release *)
  env_release : Ctx → string → string → W → W;
  (* db_api.action_mark_failed / succeeded / cancelled *)
  env_mark_failed : Ctx → string → Z → W → W;
  env_mark_succeeded : Ctx → string → Z → W → W;
  env_mark_cancelled : Ctx → string → Z → W → W;
  (* db_api.action_control *)
  env_control : Ctx → string → string → W → W;
  (* db_api.action_control_check *)
  env_control_check : Ctx → string → W → option string;
  (* eventlet.sleep: the other tasks run while this one is suspended *)
  env_sleep : Z → W → W
}.

(** ** The monad of module code: world state, trace, exceptions *)

Definition M (W A : Type) : Type := W → outcome A * W * list event.

Definition ret {W A} (a : A) : M W A := λ w, (Ret a, w, []).

Definition raise {W A} (e : exn) : M W A := λ w, (Raise e, w, []).

Definition out_of_fuel {W A} : M W A := λ w, (OutOfFuel, w, []).

Definition bind {W A B} (c : M W A) (k : A → M W B) : M W B :=
  λ w, match c w with
       | (Ret a, w1, t1) =>
           match k a w1 with (r, w2, t2) => (r, w2, t1 ++ t2) end
       | (Raise e, w1, t1) => (Raise e, w1, t1)
       | (OutOfFuel, w1, t1) => (OutOfFuel, w1, t1)
       end.

Notation "x <- c ;; k" := (bind c (λ x, k))
  (at level 100, c at next level, right associativity).

Definition result_of {W A} (r : outcome A * W * list event) : outcome A := r.1.1.
Definition world_of {W A} (r : outcome A * W * list event) : W := r.1.2.
Definition trace_of {W A} (r : outcome A * W * list event) : list event := r.2.

(** A handle of a running task, as [start_action_thread] returns it. *)
Definition thread : Type := nat.

Section Calls.
Context {W : Type} `{Env W}.

Definition wallclock : M W Z := λ w, (Ret (env_wallclock w), w, []).

Definition execute (action : Action) : M W Result :=
  λ w, let (r, w') := env_execute action w in
       (Ret r, w', [EvExecute (id action)]).

Definition Action_load (ctx : Ctx) (action_id : string) : M W Action :=
  λ w, (Ret (env_load ctx action_id w), w, [EvLoad ctx action_id]).

Definition action_acquire (ctx : Ctx) (action_id engine_id : string)
    (timestamp : Z) : M W bool :=
  λ w, let (b, w') := env_acquire ctx action_id engine_id timestamp w in
       (Ret b, w', [EvAcquire ctx action_id engine_id timestamp]).

Definition action_release (ctx : Ctx) (action_id engine_id : string)
    : M W unit :=
  λ w, (Ret tt, env_release ctx action_id engine_id w,
        [EvRelease ctx action_id engine_id]).

Definition action_mark_failed (ctx : Ctx) (action_id : string)
    (timestamp : Z) : M W unit :=
  λ w, (Ret tt, env_mark_failed ctx action_id timestamp w,
        [EvMarkFailed ctx action_id timestamp]).

Definition action_mark_succeeded (ctx : Ctx) (action_id : string)
    (timestamp : Z) : M W unit :=
  λ w, (Ret tt, env_mark_succeeded ctx action_id timestamp w,
        [EvMarkSucceeded ctx action_id timestamp]).

Definition action_mark_cancelled (ctx : Ctx) (action_id : string)
    (timestamp : Z) : M W unit :=
  λ w, (Ret tt, env_mark_cancelled ctx action_id timestamp w,
        [EvMarkCancelled ctx action_id timestamp]).

Definition action_control (ctx : Ctx) (action_id flag : string)
    : M W unit :=
  λ w, (Ret tt, env_control ctx action_id flag w,
        [EvControl ctx action_id flag]).

Definition action_control_check (ctx : Ctx) (action_id : string)
    : M W (option string) :=
  λ w, (Ret (env_control_check ctx action_id w), w,
        [EvControlCheck ctx action_id]).

Definition eventlet_sleep (seconds : Z) : M W unit :=
  λ w, (Ret tt, env_sleep seconds w, [EvSleep seconds]).

(** ** ActionProc (lines 115-147) *)

(** The loop [while result == action.RES_RETRY: result = action.execute()].
    [fuel] bounds the number of iterations. *)
Fixpoint ActionProc_loop (fuel : nat) (action : Action) (result : Result)
    : M W Result :=
  if decide (result = RES_RETRY) then
    match fuel with
    | O => out_of_fuel
    | S fuel' =>
        result' <- execute action ;;
        ActionProc_loop fuel' action result'
    end
  else ret result.

Definition ActionProc (fuel : nat) (ctx : Ctx) (action : Action)
    (wait_time : option Z) : M W unit :=
  result <- execute action ;;
  result <- ActionProc_loop fuel action result ;;
  timestamp <- wallclock ;;
  if decide (result = RES_ERROR) then
    action_mark_failed ctx (id action) timestamp
  else if decide (result = RES_OK) then
    action_mark_succeeded ctx (id action) timestamp
  else if decide (result = RES_CANCEL) then
    action_mark_cancelled ctx (id action) timestamp
  else ret tt.

(** ** start_action (lines 150-175) *)

(** [tgm.start_action_thread(context, action)]: [tgm] is whatever object
    the caller passes, so its method is an argument here.  It returns a
    handle, or a falsy value, modelled as [None]. *)
Definition tgm_start_action_thread
    (tgm : Ctx → Action → M W (option thread))
    (ctx : Ctx) (action : Action) : M W (option thread) :=
  λ w, match tgm ctx action w with
       | (r, w', t) => (r, w', EvStartActionThread ctx (id action) :: t)
       end.

(** The three branches end as in the source: [return True] after a
    successful spawn, [return False] when the lock is taken, and no
    [return] statement after the release, so that the call evaluates to
    [None] there. *)
Definition start_action (ctx : Ctx) (action_id engine_id : string)
    (tgm : Ctx → Action → M W (option thread)) : M W pyval :=
  action <- Action_load ctx action_id ;;
  now <- wallclock ;;
  let action := set_start_time action now in
  result <- action_acquire ctx action_id engine_id (start_time action) ;;
  if (result : bool) then
    th <- tgm_start_action_thread tgm ctx action ;;
    match th with
    | None =>
        _ <- action_release ctx action_id engine_id ;;
        ret PyNone
    | Some _ => ret (PyBool true)
    end
  else ret (PyBool false).

(** ** suspend_action, resume_action, cancel_action (lines 178-208) *)

Definition suspend_action (ctx : Ctx) (action_id : string) : M W unit :=
  action_control ctx action_id ACTION_SUSPEND.

Definition resume_action (ctx : Ctx) (action_id : string) : M W unit :=
  action_control ctx action_id ACTION_RESUME.

Definition cancel_action (ctx : Ctx) (action_id : string) : M W unit :=
  action_control ctx action_id ACTION_CANCEL.

(** ** action_timeout (lines 252-260) *)

(** [x > y] where [y] may be [None]: an ordering comparison of a number
    with [None] raises [TypeError] (Python 3). *)
Definition py_gt (x : Z) (y : option Z) : M W bool :=
  match y with
  | Some y => ret (bool_decide (x > y))
  | None => raise TypeError
  end.

Definition action_timeout (action : Action) : M W bool :=
  now <- wallclock ;;
  let time_lapse := now - start_time action in
  exceeded <- py_gt time_lapse (timeout action) ;;
  if (exceeded : bool) then ret true else ret false.

(** ** action_control_flag (lines 211-222) *)

(** [action.timeout is not None and action_timeout(action)]: the right
    operand is evaluated only when the left one is true. *)
Definition action_control_flag (action : Action) : M W (option string) :=
  timed_out <- match timeout action with
               | Some _ => action_timeout action
               | None => ret false
               end ;;
  if (timed_out : bool) then ret (Some ACTION_TIMEOUT)
  else action_control_check (context action) (id action).

(** ** action_cancelled, action_suspended, action_resumed (lines 225-249) *)

Definition action_cancelled (action : Action) : M W bool :=
  flag <- action_control_flag action ;;
  if decide (flag = Some ACTION_CANCEL) then ret true else ret false.

Definition action_suspended (action : Action) : M W bool :=
  flag <- action_control_flag action ;;
  if decide (flag = Some ACTION_SUSPEND) then ret true else ret false.

Definition action_resumed (action : Action) : M W bool :=
  flag <- action_control_flag action ;;
  if decide (flag = Some ACTION_RESUME) then ret true else ret false.

(** ** reschedule, action_wait, sleep (lines 263-286) *)

Definition reschedule (action : Action) (sleep_time : option Z) : M W unit :=
  match sleep_time with
  | Some seconds => eventlet_sleep seconds
  | None => ret tt
  end.

(** [while not action_resumed(action): reschedule(action, sleep_time=1)].
    [fuel] bounds the number of iterations. *)
Fixpoint action_wait (fuel : nat) (action : Action) : M W unit :=
  resumed <- action_resumed action ;;
  if negb resumed then
    match fuel with
    | O => out_of_fuel
    | S fuel' =>
        _ <- reschedule action (Some 1) ;;
        action_wait fuel' action
    end
  else ret tt.

Definition sleep (sleep_time : Z) : M W unit := eventlet_sleep sleep_time.

End Calls.

(** ** ThreadGroupManager (lines 36-93) *)

(** [cfg.CONF], of which the module reads [periodic_interval]. *)
Record Conf : Type := { periodic_interval : Z }.

(** What a task of the group runs. *)
Inductive task : Type :=
| TaskActionProc (ctx : Ctx) (action : Action)
| TaskOther (name : string).

(** A callable linked to a task with its arguments; the module links the
    closure [release] of [start_action_thread]. *)
Inductive callback : Type :=
| CbRelease (ctx : Ctx) (action : Action).

Record Timer : Type := {
  timer_interval : Z;
  timer_callback : string
}.

Record GreenThread : Type := {
  gt_task : task;
  gt_links : list callback
}.

(** Modelled from the spec: the thread group of
    senlin/openstack/common/threadgroup.py.  [add_thread] spawns a task and
    returns its handle, [link] registers a completion callback of a task,
    [add_timer] registers a periodic task with its period.  Handles are
    handed out in sequence; [tg_finished] holds the tasks that have exited
    and whose linked callbacks have been called. *)
Record ThreadGroup : Type := {
  tg_spawned : nat;
  tg_live : gmap nat GreenThread;
  tg_finished : gset nat;
  tg_timers : list Timer
}.

Definition ThreadGroup_new : ThreadGroup :=
  {| tg_spawned := O; tg_live := ∅; tg_finished := ∅; tg_timers := [] |}.

Definition ThreadGroup_add_thread (t : task) (g : ThreadGroup)
    : thread * ThreadGroup :=
  let th := tg_spawned g in
  (th, {| tg_spawned := S th;
          tg_live := <[th := {| gt_task := t; gt_links := [] |}]> (tg_live g);
          tg_finished := tg_finished g;
          tg_timers := tg_timers g |}).

Definition Thread_link (th : thread) (cb : callback) (g : ThreadGroup)
    : ThreadGroup :=
  {| tg_spawned := tg_spawned g;
     tg_live := alter (λ gt, {| gt_task := gt_task gt;
                                gt_links := gt_links gt ++ [cb] |})
                      th (tg_live g);
     tg_finished := tg_finished g;
     tg_timers := tg_timers g |}.

Definition ThreadGroup_add_timer (interval : Z) (func : string)
    (g : ThreadGroup) : ThreadGroup :=
  {| tg_spawned := tg_spawned g;
     tg_live := tg_live g;
     tg_finished := tg_finished g;
     tg_timers := tg_timers g ++
                  [{| timer_interval := interval; timer_callback := func |}] |}.

Definition ThreadGroup_stop_timers (g : ThreadGroup) : ThreadGroup :=
  {| tg_spawned := tg_spawned g;
     tg_live := tg_live g;
     tg_finished := tg_finished g;
     tg_timers := [] |}.

(** The manager: [self.threads], a dict from action id to handle, and
    [self.group]. *)
Record ThreadGroupManager : Type := {
  threads : gmap string thread;
  group : ThreadGroup
}.

(** [add_timer] (lines 84-90): the period handed to the group is
    [cfg.CONF.periodic_interval]; the parameter [interval] is not used. *)
Definition add_timer (conf : Conf) (self : ThreadGroupManager)
    (interval : Z) (func : string) : ThreadGroupManager :=
  {| threads := threads self;
     group := ThreadGroup_add_timer (periodic_interval conf) func (group self) |}.

Definition _service_task : string := "_service_task".

(** [__init__] (lines 39-46) *)
Definition ThreadGroupManager_init (conf : Conf) : ThreadGroupManager :=
  add_timer conf {| threads := ∅; group := ThreadGroup_new |}
            (periodic_interval conf) _service_task.

(** [start] (lines 61-64) *)
Definition start (self : ThreadGroupManager) (func : task)
    : thread * ThreadGroupManager :=
  let (th, g) := ThreadGroup_add_thread func (group self) in
  (th, {| threads := threads self; group := g |}).

(** The closure [release] (lines 74-77): [self.threads.pop(action.id)],
    which raises [KeyError] when the key is absent. *)
Definition release (self : ThreadGroupManager) (ctx : Ctx)
    (action : Action) : outcome unit * ThreadGroupManager :=
  match threads self !! id action with
  | Some _ =>
      (Ret tt, {| threads := delete (id action) (threads self);
                  group := group self |})
  | None => (Raise (KeyError (id action)), self)
  end.

(** [start_action_thread] (lines 66-82) *)
Definition start_action_thread (self : ThreadGroupManager) (ctx : Ctx)
    (action : Action) : thread * ThreadGroupManager :=
  let (th, self) := start self (TaskActionProc ctx action) in
  let self := {| threads := <[id action := th]> (threads self);
                 group := group self |} in
  let self := {| threads := threads self;
                 group := Thread_link th (CbRelease ctx action) (group self) |} in
  (th, self).

(** [stop_timers] (lines 92-93) *)
Definition stop_timers (self : ThreadGroupManager) : ThreadGroupManager :=
  {| threads := threads self; group := ThreadGroup_stop_timers (group self) |}.

(** The callbacks linked to a task are called in the order of their
    registration when the task exits; an exception of one of them ends
    the calls. *)
Fixpoint run_links (cbs : list callback) (self : ThreadGroupManager)
    : outcome unit * ThreadGroupManager :=
  match cbs with
  | [] => (Ret tt, self)
  | CbRelease ctx action :: rest =>
      match release self ctx action with
      | (Ret _, self') => run_links rest self'
      | (r, self') => (r, self')
      end
  end.

(** A task exits: it leaves the live tasks and its callbacks are called.
    Only a live task can exit. *)
Definition thread_exit (th : thread) (self : ThreadGroupManager)
    : outcome unit * ThreadGroupManager :=
  match tg_live (group self) !! th with
  | None => (Ret tt, self)
  | Some gt =>
      let g := group self in
      run_links (gt_links gt)
        {| threads := threads self;
           group := {| tg_spawned := tg_spawned g;
                       tg_live := delete th (tg_live g);
                       tg_finished := {[th]} ∪ tg_finished g;
                       tg_timers := tg_timers g |} |}
  end.

(** What happens to a manager over its life: tasks are spawned for
    actions, and tasks exit. *)
Inductive tgm_event : Type :=
| Spawn (ctx : Ctx) (action : Action)
| Exit (th : thread).

Definition tgm_step (self : ThreadGroupManager) (e : tgm_event)
    : ThreadGroupManager :=
  match e with
  | Spawn ctx action => (start_action_thread self ctx action).2
  | Exit th => (thread_exit th self).2
  end.

Definition tgm_run (es : list tgm_event) (self : ThreadGroupManager)
    : ThreadGroupManager :=
  fold_left tgm_step es self.

(** The handles that the running-task map holds for an action id. *)
Definition handles_of (self : ThreadGroupManager) (action_id : string)
    : list thread :=
  (filter (λ kv, kv.1 = action_id) (map_to_list (threads self))).*2.

(** The timer that the last [add_timer] registered. *)
Definition last_timer (self : ThreadGroupManager) : option Timer :=
  last (tg_timers (group self)).

(** What holds of a manager between two events of its life: an entry of
    the running-task map refers to a live task that runs the action of
    that id and has the closure [release] of that action as its only
    link; live tasks have handles that were handed out and have not
    finished; finished tasks have handles that were handed out. *)
Definition tgm_inv (self : ThreadGroupManager) : Prop :=
  (∀ action_id th, threads self !! action_id = Some th →
     ∃ ctx action, id action = action_id ∧
       tg_live (group self) !! th =
       Some {| gt_task := TaskActionProc ctx action;
               gt_links := [CbRelease ctx action] |}) ∧
  (∀ th gt, tg_live (group self) !! th = Some gt →
     (th < tg_spawned (group self))%nat ∧ th ∉ tg_finished (group self)) ∧
  (∀ th, th ∈ tg_finished (group self) →
     (th < tg_spawned (group self))%nat).

(** The group after the task [th] has left the live tasks. *)
Definition exited_group (th : thread) (g : ThreadGroup) : ThreadGroup :=
  {| tg_spawned := tg_spawned g;
     tg_live := delete th (tg_live g);
     tg_finished := {[th]} ∪ tg_finished g;
     tg_timers := tg_timers g |}.

(** ** A reference environment

    Modelled from the spec: an in-memory store with the contract that the
    scheduler requires of [db_api] (acquire succeeds iff the action has no
    owner, release clears the ownership of the owner, the mark operations
    write a status with its timestamp, control writes replace the pending
    flag), a clock, an action whose step returns the outcomes of a script,
    and other tasks that write one control request during each suspension
    of the running task. *)
Record RefWorld : Type := mkRefWorld {
  rw_clock : Z;
  rw_script : list Result;
  rw_owner : gmap string string;
  rw_status : gmap string (string * Z);
  rw_control : gmap string string;
  rw_requests : list (string * string)
}.

Definition rw_execute (w : RefWorld) : Result * RefWorld :=
  match rw_script w with
  | [] => (RES_OK, w)
  | r :: script =>
      (r, mkRefWorld (rw_clock w) script (rw_owner w) (rw_status w)
                     (rw_control w) (rw_requests w))
  end.

Definition rw_acquire (action_id engine_id : string) (w : RefWorld)
    : bool * RefWorld :=
  match rw_owner w !! action_id with
  | Some _ => (false, w)
  | None =>
      (true, mkRefWorld (rw_clock w) (rw_script w)
                        (<[action_id := engine_id]> (rw_owner w))
                        (rw_status w) (rw_control w) (rw_requests w))
  end.

Definition rw_release (action_id engine_id : string) (w : RefWorld)
    : RefWorld :=
  if decide (rw_owner w !! action_id = Some engine_id) then
    mkRefWorld (rw_clock w) (rw_script w) (delete action_id (rw_owner w))
               (rw_status w) (rw_control w) (rw_requests w)
  else w.

Definition rw_mark (status action_id : string) (timestamp : Z) (w : RefWorld)
    : RefWorld :=
  mkRefWorld (rw_clock w) (rw_script w) (rw_owner w)
             (<[action_id := (status, timestamp)]> (rw_status w))
             (rw_control w) (rw_requests w).

Definition rw_set_control (action_id flag : string) (w : RefWorld)
    : RefWorld :=
  mkRefWorld (rw_clock w) (rw_script w) (rw_owner w) (rw_status w)
             (<[action_id := flag]> (rw_control w)) (rw_requests w).

Definition rw_sleep (seconds : Z) (w : RefWorld) : RefWorld :=
  let w' := mkRefWorld (rw_clock w + seconds) (rw_script w) (rw_owner w)
                       (rw_status w) (rw_control w) (tail (rw_requests w)) in
  match rw_requests w with
  | [] => w'
  | (action_id, flag) :: _ => rw_set_control action_id flag w'
  end.

Global Instance RefWorld_Env : Env RefWorld := {|
  env_wallclock := rw_clock;
  env_execute := λ _, rw_execute;
  env_load := λ ctx action_id _, mkAction action_id ctx 0 None;
  env_acquire := λ _ action_id engine_id _, rw_acquire action_id engine_id;
  env_release := λ _, rw_release;
  env_mark_failed := λ _, rw_mark "FAILED";
  env_mark_succeeded := λ _, rw_mark "SUCCEEDED";
  env_mark_cancelled := λ _, rw_mark "CANCELLED";
  env_control := λ _, rw_set_control;
  env_control_check := λ _ action_id w, rw_control w !! action_id;
  env_sleep := rw_sleep
|}.

Definition rw_init : RefWorld := mkRefWorld 100 [] ∅ ∅ ∅ [].

(** ** Runs of the environment, used to state the properties *)

Section Runs.
Context {W : Type} `{Env W}.

(** The world after [n] invocations of the step of [action]. *)
Fixpoint after_executes (n : nat) (action : Action) (w : W) : W :=
  match n with
  | O => w
  | S n' => after_executes n' action (env_execute action w).2
  end.

(** The outcome of the invocation number [n] (from 0) of the step. *)
Definition outcome_at (n : nat) (action : Action) (w : W) : Result :=
  (env_execute action (after_executes n action w)).1.

(** The outcome mapping as the specification words it: the store call
    that goes with a final outcome, and its effect on the world. *)
Definition spec_persist_events (r : Result) (ctx : Ctx)
    (action_id : string) (timestamp : Z) : list event :=
  match r with
  | RES_OK => [EvMarkSucceeded ctx action_id timestamp]
  | RES_ERROR => [EvMarkFailed ctx action_id timestamp]
  | RES_CANCEL => [EvMarkCancelled ctx action_id timestamp]
  | RES_TIMEOUT => []
  | RES_RETRY => []
  end.

Definition spec_persist_world (r : Result) (ctx : Ctx)
    (action_id : string) (timestamp : Z) (w : W) : W :=
  match r with
  | RES_OK => env_mark_succeeded ctx action_id timestamp w
  | RES_ERROR => env_mark_failed ctx action_id timestamp w
  | RES_CANCEL => env_mark_cancelled ctx action_id timestamp w
  | RES_TIMEOUT => w
  | RES_RETRY => w
  end.

(** The timeout predicate as the specification words it: the timeout is
    set and the time elapsed since [start_time] exceeds it. *)
Definition spec_has_timed_out (action : Action) (w : W) : bool :=
  match timeout action with
  | Some t => bool_decide (env_wallclock w - start_time action > t)
  | None => false
  end.

(** The world after [n] suspensions of one time unit. *)
Fixpoint after_sleeps (n : nat) (w : W) : W :=
  match n with
  | O => w
  | S n' => after_sleeps n' (env_sleep 1 w)
  end.

(** [action_resumed] answers [True] in the world [w]. *)
Definition reports_resume (action : Action) (w : W) : bool :=
  match result_of (action_resumed action w) with
  | Ret true => true
  | _ => false
  end.

(** The poll number [n] of [action_wait] is the first one that sees the
    action resumed. *)
Definition resumes_first_at (n : nat) (action : Action) (w : W) : Prop :=
  reports_resume action (after_sleeps n w) = true ∧
  ∀ k, (k < n)%nat → reports_resume action (after_sleeps k w) = false.

End Runs.

(** ** Concrete inputs *)

Definition act_a : Action := mkAction "a" "ctx" 0 None.

(** An action that started at time 0 with a timeout of 5. *)
Definition act_t : Action := mkAction "a" "ctx" 0 (Some 5).

(** The step answers RETRY twice, then ERROR. *)
Definition w_retry_error : RefWorld :=
  mkRefWorld 100 [RES_RETRY; RES_RETRY; RES_ERROR] ∅ ∅ ∅ [].

(** The step answers RETRY once, then OK. *)
Definition w_retry_ok : RefWorld :=
  mkRefWorld 100 [RES_RETRY; RES_OK] ∅ ∅ ∅ [].

(** The action "a" is locked by the engine "engine-1". *)
Definition w_locked : RefWorld :=
  mkRefWorld 100 [] {["a" := "engine-1"]} ∅ ∅ [].

(** A cancel request is pending for the action "a". *)
Definition w_cancel_pending : RefWorld :=
  mkRefWorld 100 [] ∅ ∅ {["a" := ACTION_CANCEL]} [].

(** Other tasks will ask to suspend, to cancel and then to resume "a". *)
Definition w_requests : RefWorld :=
  mkRefWorld 100 [] ∅ ∅ ∅
    [("a", ACTION_SUSPEND); ("a", ACTION_CANCEL); ("a", ACTION_RESUME)].

(** A manager whose [start_action_thread] cannot spawn a task. *)
Definition tgm_exhausted : Ctx → Action → M RefWorld (option thread) :=
  λ _ _, ret None.

(** A manager whose [start_action_thread] hands back the handle 0. *)
Definition tgm_ok : Ctx → Action → M RefWorld (option thread) :=
  λ _ _, ret (Some O).

Definition conf60 : Conf := {| periodic_interval := 60 |}.

(** A manager whose [start_action_thread] raises. *)
Definition tgm_broken : Ctx → Action → M RefWorld (option thread) :=
  λ _ _, raise AttributeError.

(** An action that has the id and the context of [act_a], and a timeout. *)
Definition act_a' : Action := mkAction "a" "ctx" 7 (Some 1000).

(** A world in which the step of every action answers RETRY, forever: the
    clock and the number of steps taken so far. *)
Record RetryWorld : Type := mkRetryWorld {
  rt_clock : Z;
  rt_steps : nat
}.

Global Instance RetryWorld_Env : Env RetryWorld := {|
  env_wallclock := rt_clock;
  env_execute := λ _ w, (RES_RETRY, mkRetryWorld (rt_clock w) (S (rt_steps w)));
  env_load := λ ctx action_id _, mkAction action_id ctx 0 None;
  env_acquire := λ _ _ _ _ w, (true, w);
  env_release := λ _ _ _ w, w;
  env_mark_failed := λ _ _ _ w, w;
  env_mark_succeeded := λ _ _ _ w, w;
  env_mark_cancelled := λ _ _ _ w, w;
  env_control := λ _ _ _ w, w;
  env_control_check := λ _ _ _, None;
  env_sleep := λ seconds w, mkRetryWorld (rt_clock w + seconds) (rt_steps w)
|}.

(** * Properties *)

(** ** The monad *)

Section MonadFacts.
Context {W : Type}.

Lemma bind_ret_l {A B} (a : A) (k : A → M W B) (w : W) :
  bind (ret a) k w = k a w.
Proof. unfold bind, ret. destruct (k a w) as [[r w'] t]. reflexivity. Qed.

Lemma bind_run {A B} (c : M W A) (k : A → M W B) (w w1 : W) a t1 :
  c w = (Ret a, w1, t1) →
  bind c k w = (result_of (k a w1), world_of (k a w1), t1 ++ trace_of (k a w1)).
Proof.
  intros Hc. unfold bind. rewrite Hc.
  destruct (k a w1) as [[r w2] t2]. reflexivity.
Qed.

Lemma run_eta {A} (r : outcome A * W * list event) :
  r = (result_of r, world_of r, trace_of r).
Proof. destruct r as [[? ?] ?]. reflexivity. Qed.
End MonadFacts.

(** ** ActionProc *)

Section RunnerFacts.
Context {W : Type} `{Env W}.

Lemma execute_run (action : Action) (w : W) :
  execute action w =
  (Ret (outcome_at 0 action w), after_executes 1 action w,
   [EvExecute (id action)]).
Proof.
  unfold execute, outcome_at. simpl.
  destruct (env_execute action w) as [r w']. reflexivity.
Qed.

Lemma outcome_at_S (n : nat) (action : Action) (w : W) :
  outcome_at (S n) action w = outcome_at n action (after_executes 1 action w).
Proof. reflexivity. Qed.

Lemma after_executes_S (n : nat) (action : Action) (w : W) :
  after_executes (S n) action w =
  after_executes n action (after_executes 1 action w).
Proof. reflexivity. Qed.

(** The loop invokes the step until the outcome is not RETRY. *)
Lemma ActionProc_loop_run (n : nat) : ∀ (fuel : nat) (action : Action) (w : W),
  (n ≤ fuel)%nat →
  (∀ k, (k < n)%nat → outcome_at k action w = RES_RETRY) →
  outcome_at n action w ≠ RES_RETRY →
  ActionProc_loop fuel action (outcome_at 0 action w)
                  (after_executes 1 action w) =
  (Ret (outcome_at n action w), after_executes (S n) action w,
   repeat (EvExecute (id action)) n).
Proof.
  induction n as [|n IH]; intros fuel action w Hfuel Hretry Hlast.
  - destruct fuel; simpl; destruct (decide _); try contradiction; reflexivity.
  - destruct fuel as [|fuel]; [lia|].
    simpl ActionProc_loop.
    rewrite (Hretry O) by lia.
    destruct (decide (RES_RETRY = RES_RETRY)) as [_|Hne]; [|contradiction].
    rewrite (bind_run _ _ _ _ _ _ (execute_run action _)).
    assert (ActionProc_loop fuel action
              (outcome_at 0 action (after_executes 1 action w))
              (after_executes 1 action (after_executes 1 action w)) =
            (Ret (outcome_at (S n) action w),
             after_executes (S (S n)) action w,
             repeat (EvExecute (id action)) n)) as Hrest.
    { apply (IH fuel action (after_executes 1 action w)).
      - lia.
      - intros k Hk. rewrite <- outcome_at_S. apply Hretry. lia.
      - rewrite <- outcome_at_S. exact Hlast. }
    cbn [after_executes] in Hrest |- *. rewrite Hrest. reflexivity.
Qed.

(** While every outcome is RETRY the loop does not end. *)
Lemma ActionProc_loop_retry_forever (fuel : nat) : ∀ (action : Action) (w : W),
  (∀ k, outcome_at k action w = RES_RETRY) →
  result_of (ActionProc_loop fuel action (outcome_at 0 action w)
                             (after_executes 1 action w)) = OutOfFuel.
Proof.
  induction fuel as [|fuel IH]; intros action w Hretry.
  - simpl. rewrite Hretry. reflexivity.
  - simpl ActionProc_loop. rewrite (Hretry O).
    destruct (decide (RES_RETRY = RES_RETRY)) as [_|Hne]; [|contradiction].
    rewrite (bind_run _ _ _ _ _ _ (execute_run action _)).
    unfold result_of at 1. cbn [fst].
    apply (IH action (after_executes 1 action w)).
    intros k. rewrite <- outcome_at_S. apply Hretry.
Qed.

End RunnerFacts.

Section RunnerSpec.
Context {W : Type} `{Env W}.

(** C1.  Outcome mapping of the Runner.  When the step of the action
    answers RETRY [n] times and then a first outcome other than RETRY,
    [ActionProc] returns (the loop bound being at least [n]) after exactly
    [n + 1] invocations of the step, and the only other call it makes is
    the store write that goes with that outcome, with the clock read
    after the last invocation as timestamp: OK gives
    [action_mark_succeeded], ERROR gives [action_mark_failed], CANCEL
    gives [action_mark_cancelled], and TIMEOUT gives no write at all. *)
Theorem ActionProc_outcome_mapping (ctx : Ctx) (action : Action)
    (wait_time : option Z) (w : W) (n fuel : nat) :
  (∀ k, (k < n)%nat → outcome_at k action w = RES_RETRY) →
  outcome_at n action w ≠ RES_RETRY →
  (n ≤ fuel)%nat →
  let r := outcome_at n action w in
  let w' := after_executes (S n) action w in
  let timestamp := env_wallclock w' in
  ActionProc fuel ctx action wait_time w =
    (Ret tt, spec_persist_world r ctx (id action) timestamp w',
     repeat (EvExecute (id action)) (S n) ++
     spec_persist_events r ctx (id action) timestamp).
Proof.
  intros Hretry Hlast Hfuel. cbv zeta.
  unfold ActionProc.
  rewrite (bind_run _ _ _ _ _ _ (execute_run action w)).
  rewrite (bind_run _ _ _ _ _ _
             (ActionProc_loop_run n fuel action w Hfuel Hretry Hlast)).
  unfold wallclock, bind.
  destruct (outcome_at n action w) eqn:Hr; try congruence;
    repeat (destruct (decide _); try discriminate; try contradiction);
    reflexivity.
Qed.

(** Whatever the step answers, [ActionProc] never suspends the task. *)
Lemma ActionProc_loop_no_sleep (fuel : nat) :
  ∀ (action : Action) (r : Result) (w : W),
    filter is_sleep (trace_of (ActionProc_loop fuel action r w)) = [].
Proof.
  induction fuel as [|fuel IH]; intros action r w; simpl;
    destruct (decide (r = RES_RETRY)); try reflexivity.
  unfold bind, execute.
  destruct (env_execute action w) as [r' w1].
  specialize (IH action r' w1).
  destruct (ActionProc_loop fuel action r' w1) as [[r2 w2] t2].
  exact IH.
Qed.

End RunnerSpec.

Lemma ActionProc_outcome_mapping_witness :
  ActionProc 5 "ctx" act_a (Some 1) w_retry_error =
    (Ret tt, rw_mark "FAILED" "a" 100 (mkRefWorld 100 [] ∅ ∅ ∅ []),
     [EvExecute "a"; EvExecute "a"; EvExecute "a";
      EvMarkFailed "ctx" "a" 100]).
Proof.
  rewrite (ActionProc_outcome_mapping "ctx" act_a (Some 1) w_retry_error 2 5).
  - reflexivity.
  - intros k Hk. destruct k as [|[|k]]; [reflexivity | reflexivity | lia].
  - vm_compute. discriminate.
  - lia.
Defined.

(** The other final outcomes, on the reference environment. *)
Example ActionProc_timeout_writes_nothing :
  ActionProc 3 "ctx" act_a (Some 1)
             (mkRefWorld 100 [RES_RETRY; RES_TIMEOUT] ∅ ∅ ∅ []) =
    (Ret tt, mkRefWorld 100 [] ∅ ∅ ∅ [], [EvExecute "a"; EvExecute "a"]).
Proof. vm_compute. reflexivity. Qed.

Example ActionProc_cancel :
  trace_of (ActionProc 3 "ctx" act_a (Some 1)
                       (mkRefWorld 100 [RES_CANCEL] ∅ ∅ ∅ [])) =
    [EvExecute "a"; EvMarkCancelled "ctx" "a" 100].
Proof. vm_compute. reflexivity. Qed.

Example ActionProc_out_of_fuel :
  result_of (ActionProc 1 "ctx" act_a (Some 1) w_retry_error) = OutOfFuel.
Proof. vm_compute. reflexivity. Qed.

(** C2.  The docstring of [ActionProc] promises a suspension of
    [wait_time] seconds between two steps.  The code never suspends the
    task: with [wait_time = 1] and a step that answers RETRY and then OK,
    the two invocations of the step follow each other with no
    [eventlet.sleep] in between. *)
Theorem ActionProc_retry_does_not_sleep :
  trace_of (ActionProc 5 "ctx" act_a (Some 1) w_retry_ok) =
    [EvExecute "a"; EvExecute "a"; EvMarkSucceeded "ctx" "a" 100] ∧
  world_of (ActionProc 5 "ctx" act_a (Some 1) w_retry_ok) =
    rw_mark "SUCCEEDED" "a" 100 (mkRefWorld 100 [] ∅ ∅ ∅ []) ∧
  EvSleep 1 ∉ trace_of (ActionProc 5 "ctx" act_a (Some 1) w_retry_ok).
Proof.
  split; [vm_compute; reflexivity|].
  split; [vm_compute; reflexivity|].
  vm_compute. intros Hin.
  repeat (apply elem_of_cons in Hin as [Hin|Hin]; [discriminate|]).
  by apply elem_of_nil in Hin.
Qed.

(** ** start_action *)

Section StartActionSpec.
Context {W : Type} `{Env W}.

(** The three ways through [start_action], by the answer of the store
    and of the manager. *)
Lemma start_action_run (ctx : Ctx) (action_id engine_id : string)
    (tgm : Ctx → Action → M W (option thread)) (w : W) :
  let now := env_wallclock w in
  let action := set_start_time (env_load ctx action_id w) now in
  let locked := env_acquire ctx action_id engine_id now w in
  let spawned := tgm ctx action locked.2 in
  start_action ctx action_id engine_id tgm w =
  if locked.1 then
    match result_of spawned with
    | Ret (Some _) =>
        (Ret (PyBool true), world_of spawned,
         [EvLoad ctx action_id; EvAcquire ctx action_id engine_id now;
          EvStartActionThread ctx (id action)] ++ trace_of spawned)
    | Ret None =>
        (Ret PyNone, env_release ctx action_id engine_id (world_of spawned),
         [EvLoad ctx action_id; EvAcquire ctx action_id engine_id now;
          EvStartActionThread ctx (id action)] ++ trace_of spawned ++
         [EvRelease ctx action_id engine_id])
    | Raise e =>
        (Raise e, world_of spawned,
         [EvLoad ctx action_id; EvAcquire ctx action_id engine_id now;
          EvStartActionThread ctx (id action)] ++ trace_of spawned)
    | OutOfFuel =>
        (OutOfFuel, world_of spawned,
         [EvLoad ctx action_id; EvAcquire ctx action_id engine_id now;
          EvStartActionThread ctx (id action)] ++ trace_of spawned)
    end
  else
    (Ret (PyBool false), locked.2,
     [EvLoad ctx action_id; EvAcquire ctx action_id engine_id now]).
Proof.
  cbv zeta.
  unfold start_action, Action_load, wallclock, action_acquire,
    tgm_start_action_thread, action_release, bind, ret. simpl.
  destruct (env_acquire ctx action_id engine_id (env_wallclock w) w)
    as [[|] w1]; simpl; [|reflexivity].
  destruct (tgm ctx _ w1) as [[[[th|]|e|] w2] t2]; simpl;
    rewrite ?app_nil_r; reflexivity.
Qed.

(** C4.  When [action_acquire] fails, [start_action] returns [False]
    and raises nothing; the calls it has made are the load of the action
    and the acquire attempt, so that no task is spawned through the
    manager and no status write (mark succeeded, failed or cancelled)
    occurs; the world is as the acquire attempt left it. *)
Theorem start_action_lock_taken (ctx : Ctx)
    (action_id engine_id : string)
    (tgm : Ctx → Action → M W (option thread)) (w : W) :
  (env_acquire ctx action_id engine_id (env_wallclock w) w).1 = false →
  start_action ctx action_id engine_id tgm w =
    (Ret (PyBool false),
     (env_acquire ctx action_id engine_id (env_wallclock w) w).2,
     [EvLoad ctx action_id;
      EvAcquire ctx action_id engine_id (env_wallclock w)]) ∧
  Forall (λ e, is_spawn e = false ∧ is_mark e = false)
         (trace_of (start_action ctx action_id engine_id tgm w)).
Proof.
  intros Hlocked.
  pose proof (start_action_run ctx action_id engine_id tgm w) as Hrun.
  cbv zeta in Hrun. rewrite Hlocked in Hrun. rewrite Hrun.
  split; [reflexivity|].
  unfold trace_of. simpl. repeat constructor.
Qed.

(** After a successful acquire and a failed spawn the lock is released,
    as the last call, and the call evaluates to [None]. *)
Lemma start_action_spawn_failed (ctx : Ctx)
    (action_id engine_id : string)
    (tgm : Ctx → Action → M W (option thread)) (w w1 w2 : W) t :
  env_acquire ctx action_id engine_id (env_wallclock w) w = (true, w1) →
  tgm ctx (set_start_time (env_load ctx action_id w) (env_wallclock w)) w1
    = (Ret None, w2, t) →
  start_action ctx action_id engine_id tgm w =
    (Ret PyNone, env_release ctx action_id engine_id w2,
     [EvLoad ctx action_id;
      EvAcquire ctx action_id engine_id (env_wallclock w);
      EvStartActionThread ctx (id (env_load ctx action_id w))] ++ t ++
     [EvRelease ctx action_id engine_id]).
Proof.
  intros Hacq Hspawn.
  pose proof (start_action_run ctx action_id engine_id tgm w) as Hrun.
  cbv zeta in Hrun. rewrite Hacq in Hrun. simpl in Hrun.
  rewrite Hspawn in Hrun. exact Hrun.
Qed.

End StartActionSpec.

Lemma start_action_lock_taken_witness :
  start_action "ctx" "a" "engine-2" tgm_ok w_locked =
    (Ret (PyBool false), w_locked,
     [EvLoad "ctx" "a"; EvAcquire "ctx" "a" "engine-2" 100]).
Proof.
  destruct (start_action_lock_taken "ctx" "a" "engine-2" tgm_ok w_locked)
    as [Hrun _].
  - reflexivity.
  - rewrite Hrun. reflexivity.
Defined.

(** C3.  With the lock acquired and a manager that cannot spawn the task,
    [start_action] releases the lock with the same action id and engine
    id as its last call, and then falls off the end of its body: the
    value the caller gets is [None], not [False]. *)
Theorem start_action_spawn_failure_returns_None :
  start_action "ctx" "a" "engine-1" tgm_exhausted rw_init =
    (Ret PyNone, rw_init,
     [EvLoad "ctx" "a"; EvAcquire "ctx" "a" "engine-1" 100;
      EvStartActionThread "ctx" "a"; EvRelease "ctx" "a" "engine-1"]) ∧
  result_of (start_action "ctx" "a" "engine-1" tgm_exhausted rw_init)
    ≠ Ret (PyBool false).
Proof.
  split; [vm_compute; reflexivity|].
  vm_compute. discriminate.
Qed.

Example start_action_started :
  result_of (start_action "ctx" "a" "engine-1" tgm_ok rw_init)
    = Ret (PyBool true).
Proof. vm_compute. reflexivity. Qed.

(** ** The control-flag channel *)

Section ControlFlagSpec.
Context {W : Type} `{Env W}.

Lemma action_timeout_run (action : Action) (w : W) :
  action_timeout action w =
  match timeout action with
  | Some t =>
      (Ret (bool_decide (env_wallclock w - start_time action > t)), w, [])
  | None => (Raise TypeError, w, [])
  end.
Proof.
  unfold action_timeout, wallclock, py_gt, bind, ret, raise.
  destruct (timeout action) as [t|]; [|reflexivity].
  destruct (bool_decide _); reflexivity.
Qed.

Lemma action_control_flag_run (action : Action) (w : W) :
  action_control_flag action w =
  if spec_has_timed_out action w then (Ret (Some ACTION_TIMEOUT), w, [])
  else (Ret (env_control_check (context action) (id action) w), w,
        [EvControlCheck (context action) (id action)]).
Proof.
  unfold action_control_flag, spec_has_timed_out, bind.
  destruct (timeout action) as [t|] eqn:Ht.
  - rewrite action_timeout_run, Ht.
    destruct (bool_decide _); reflexivity.
  - reflexivity.
Qed.

(** C5.  For an action whose timeout is set and exceeded by the time
    elapsed since [start_time], [action_control_flag] answers "timeout"
    without reading the stored flag, whatever flag is pending in the
    store; and in any world, the stored flag of the action is read only
    when the timeout check is false. *)
Theorem action_control_flag_timeout_first (action : Action) (w : W)
    (t : Z) :
  timeout action = Some t →
  env_wallclock w - start_time action > t →
  action_control_flag action w = (Ret (Some ACTION_TIMEOUT), w, []) ∧
  ∀ w', EvControlCheck (context action) (id action)
          ∈ trace_of (action_control_flag action w') →
        ¬ env_wallclock w' - start_time action > t.
Proof.
  intros Ht Hlapse. split.
  - rewrite action_control_flag_run. unfold spec_has_timed_out.
    rewrite Ht, bool_decide_eq_true_2 by exact Hlapse. reflexivity.
  - intros w' Hin Hlapse'.
    rewrite action_control_flag_run in Hin. unfold spec_has_timed_out in Hin.
    rewrite Ht, bool_decide_eq_true_2 in Hin by exact Hlapse'.
    by apply elem_of_nil in Hin.
Qed.

(** [action_control_flag] is total: it returns, and leaves the world as
    it is. *)
Lemma action_control_flag_total (action : Action) (w : W) :
  ∃ flag tr, action_control_flag action w = (Ret flag, w, tr).
Proof.
  rewrite action_control_flag_run.
  destruct (spec_has_timed_out action w); eauto.
Qed.

(** C10.  [action_timeout] is partial: on an action whose timeout is
    [None] it raises [TypeError], where the comparison of the elapsed
    time with [None] is evaluated.  [action_control_flag] is total all
    the same: on such an action it does not call [action_timeout] and
    answers the stored flag, and on every action it returns a flag and
    raises nothing, because [action_timeout], called with a timeout that
    is set, returns a boolean. *)
Theorem action_timeout_partial (action : Action) (w : W) :
  timeout action = None →
  action_timeout action w = (Raise TypeError, w, []) ∧
  action_control_flag action w =
    (Ret (env_control_check (context action) (id action) w), w,
     [EvControlCheck (context action) (id action)]) ∧
  (∀ action' w', ∃ flag tr,
      action_control_flag action' w' = (Ret flag, w', tr)) ∧
  (∀ action' w' t, timeout action' = Some t →
      action_timeout action' w' =
      (Ret (bool_decide (env_wallclock w' - start_time action' > t)),
       w', [])).
Proof.
  intros Hnone. repeat split.
  - rewrite action_timeout_run, Hnone. reflexivity.
  - rewrite action_control_flag_run. unfold spec_has_timed_out.
    rewrite Hnone. reflexivity.
  - intros action' w'. apply action_control_flag_total.
  - intros action' w' t Ht. rewrite action_timeout_run, Ht. reflexivity.
Qed.

End ControlFlagSpec.

Lemma action_control_flag_timeout_first_witness :
  rw_control w_cancel_pending !! "a" = Some ACTION_CANCEL ∧
  action_control_flag act_t w_cancel_pending =
    (Ret (Some ACTION_TIMEOUT), w_cancel_pending, []).
Proof.
  split; [reflexivity|].
  apply (action_control_flag_timeout_first act_t w_cancel_pending 5).
  - reflexivity.
  - vm_compute. reflexivity.
Defined.

(** Without a timeout the pending flag is what the check answers. *)
Example action_control_flag_cancel_pending :
  action_control_flag act_a w_cancel_pending =
    (Ret (Some ACTION_CANCEL), w_cancel_pending, [EvControlCheck "ctx" "a"]).
Proof. vm_compute. reflexivity. Qed.

Lemma action_timeout_partial_witness :
  action_timeout act_a rw_init = (Raise TypeError, rw_init, []) ∧
  action_control_flag act_a rw_init =
    (Ret None, rw_init, [EvControlCheck "ctx" "a"]).
Proof.
  destruct (action_timeout_partial act_a rw_init) as (Hraise & Hflag & _).
  - reflexivity.
  - split; [exact Hraise | exact Hflag].
Defined.

(** ** action_wait *)

Section WaitSpec.
Context {W : Type} `{Env W}.

Lemma action_resumed_run (action : Action) (w : W) :
  ∃ tr, action_resumed action w = (Ret (reports_resume action w), w, tr) ∧
        filter is_sleep tr = [].
Proof.
  unfold reports_resume, action_resumed, bind.
  rewrite action_control_flag_run.
  destruct (spec_has_timed_out action w);
    destruct (decide _); simpl; eexists; split; reflexivity.
Qed.

(** When [action_resumed] answers [True], the flag in the store is
    "resume" (and the action has not timed out). *)
Lemma reports_resume_channel (action : Action) (w : W) :
  reports_resume action w = true →
  env_control_check (context action) (id action) w = Some ACTION_RESUME ∧
  spec_has_timed_out action w = false.
Proof.
  unfold reports_resume, action_resumed, bind.
  rewrite action_control_flag_run.
  destruct (spec_has_timed_out action w).
  - destruct (decide (Some ACTION_TIMEOUT = Some ACTION_RESUME)) as [Heq|];
      [discriminate Heq | simpl; discriminate].
  - destruct (decide _) as [Heq|]; [auto | simpl; discriminate].
Qed.

(** One turn of the loop. *)
Lemma action_wait_unfold (fuel : nat) (action : Action) (w : W) :
  ∃ tr0, filter is_sleep tr0 = [] ∧
    action_wait fuel action w =
    if reports_resume action w then (Ret tt, w, tr0)
    else match fuel with
         | O => (OutOfFuel, w, tr0)
         | S fuel' =>
             let r := action_wait fuel' action (env_sleep 1 w) in
             (result_of r, world_of r, tr0 ++ EvSleep 1 :: trace_of r)
         end.
Proof.
  destruct (action_resumed_run action w) as (tr0 & Hrun & Hns).
  exists tr0. split; [exact Hns|].
  destruct fuel as [|fuel]; simpl action_wait;
    rewrite (bind_run _ _ _ _ _ _ Hrun);
    destruct (reports_resume action w); simpl;
    rewrite ?app_nil_r; try reflexivity.
  unfold reschedule, eventlet_sleep, bind.
  destruct (action_wait fuel action (env_sleep 1 w)) as [[r w2] t2].
  reflexivity.
Qed.

Lemma action_wait_returns (n : nat) : ∀ (fuel : nat) (action : Action) (w : W),
  (n ≤ fuel)%nat →
  resumes_first_at n action w →
  ∃ tr, action_wait fuel action w = (Ret tt, after_sleeps n w, tr) ∧
        filter is_sleep tr = repeat (EvSleep 1) n.
Proof.
  induction n as [|n IH]; intros fuel action w Hfuel [Hyes Hno].
  - destruct (action_wait_unfold fuel action w) as (tr0 & Hns & Hrun).
    simpl in Hyes. rewrite Hyes in Hrun. eauto.
  - destruct fuel as [|fuel]; [lia|].
    destruct (action_wait_unfold (S fuel) action w) as (tr0 & Hns & Hrun).
    assert (reports_resume action w = false) as Hno0
      by (apply (Hno O); lia).
    rewrite Hno0 in Hrun. cbv zeta in Hrun.
    destruct (IH fuel action (env_sleep 1 w)) as (tr & Hrest & Hsl).
    + lia.
    + split; [exact Hyes|].
      intros k Hk. apply (Hno (S k)). lia.
    + rewrite Hrest in Hrun. simpl in Hrun.
      eexists; split; [exact Hrun|].
      rewrite filter_app, Hns, filter_cons_True by exact I.
        rewrite Hsl. reflexivity.
Qed.

Lemma action_wait_only_after (fuel : nat) : ∀ (action : Action) (w w' : W) tr,
  action_wait fuel action w = (Ret tt, w', tr) →
  ∃ n, (n ≤ fuel)%nat ∧ resumes_first_at n action w ∧
       w' = after_sleeps n w ∧
       filter is_sleep tr = repeat (EvSleep 1) n.
Proof.
  induction fuel as [|fuel IH]; intros action w w' tr Hret.
  - destruct (action_wait_unfold O action w) as (tr0 & Hns & Hrun).
    rewrite Hrun in Hret.
    destruct (reports_resume action w) eqn:Hres; [|discriminate].
    injection Hret as <- <-.
    exists O. repeat split; [lia | exact Hres | intros; lia | exact Hns].
  - destruct (action_wait_unfold (S fuel) action w) as (tr0 & Hns & Hrun).
    rewrite Hrun in Hret.
    destruct (reports_resume action w) eqn:Hres.
    + injection Hret as <- <-.
      exists O. repeat split; [lia | exact Hres | intros; lia | exact Hns].
    + cbv zeta in Hret.
      destruct (action_wait fuel action (env_sleep 1 w))
        as [[r w2] t2] eqn:Hrest.
      unfold result_of, world_of, trace_of in Hret. simpl in Hret.
      injection Hret as -> -> <-.
      destruct (IH action (env_sleep 1 w) w' t2 Hrest)
        as (n & Hn & [Hyes Hno] & Hw & Hsl).
      exists (S n). repeat split.
      * lia.
      * exact Hyes.
      * intros [|k] Hk; [exact Hres | apply Hno; lia].
      * exact Hw.
      * rewrite filter_app, Hns, filter_cons_True by exact I.
        rewrite Hsl. reflexivity.
Qed.

(** Until the action is seen resumed, [action_wait] does not return. *)
Lemma action_wait_keeps_waiting (fuel : nat) : ∀ (action : Action) (w : W),
  (∀ k, (k ≤ fuel)%nat → reports_resume action (after_sleeps k w) = false) →
  result_of (action_wait fuel action w) = OutOfFuel.
Proof.
  induction fuel as [|fuel IH]; intros action w Hno;
    assert (reports_resume action w = false) as Hno0
      by (apply (Hno O); lia).
  - destruct (action_wait_unfold O action w) as (tr0 & Hns & Hrun).
    rewrite Hrun, Hno0. reflexivity.
  - destruct (action_wait_unfold (S fuel) action w) as (tr0 & Hns & Hrun).
    rewrite Hrun, Hno0. cbv zeta. unfold result_of at 1. simpl.
    apply IH. intros k Hk. apply (Hno (S k)). lia.
Qed.

(** C6.  [action_wait] returns only after the control-flag channel
    reports resume: when it returns, it has polled [action_resumed] in
    the worlds reached after 0, 1, ..., n suspensions of one time unit
    each, the polls before the last answered [False] (whatever flags were
    pending then), the last one answered [True], and the flag in the
    store is "resume" at that moment.  Conversely, when the poll number
    [n] is the first to see the action resumed, [action_wait] returns
    there (the loop bound being at least [n]), after [n] suspensions of
    one time unit. *)
Theorem action_wait_returns_only_after_resume (fuel : nat)
    (action : Action) (w : W) :
  (∀ w' tr, action_wait fuel action w = (Ret tt, w', tr) →
     ∃ n, (n ≤ fuel)%nat ∧ w' = after_sleeps n w ∧
          resumes_first_at n action w ∧
          env_control_check (context action) (id action) w'
            = Some ACTION_RESUME ∧
          filter is_sleep tr = repeat (EvSleep 1) n) ∧
  (∀ n, (n ≤ fuel)%nat → resumes_first_at n action w →
     ∃ tr, action_wait fuel action w = (Ret tt, after_sleeps n w, tr) ∧
           filter is_sleep tr = repeat (EvSleep 1) n).
Proof.
  split.
  - intros w' tr Hret.
    destruct (action_wait_only_after fuel action w w' tr Hret)
      as (n & Hn & Hfirst & Hw & Hsl).
    exists n. repeat split; try assumption; try apply Hfirst.
    subst w'. apply reports_resume_channel, Hfirst.
  - intros n Hn Hfirst. by apply action_wait_returns.
Qed.

End WaitSpec.

Lemma action_wait_returns_only_after_resume_witness :
  ∃ tr, action_wait 10 act_a w_requests =
          (Ret tt, after_sleeps 3 w_requests, tr) ∧
        filter is_sleep tr = repeat (EvSleep 1) 3.
Proof.
  destruct (action_wait_returns_only_after_resume 10 act_a w_requests)
    as [_ Hret].
  apply (Hret 3%nat).
  - lia.
  - split; [reflexivity|].
    intros k Hk. destruct k as [|[|[|k]]]; [reflexivity..|lia].
Defined.

(** That run in full: three polls that see no flag, then
    "suspend", then "cancel", each followed by a suspension, and the poll
    that sees "resume". *)
Example action_wait_trace :
  action_wait 10 act_a w_requests =
    (Ret tt,
     mkRefWorld 103 [] ∅ ∅ {["a" := ACTION_RESUME]} [],
     [EvControlCheck "ctx" "a"; EvSleep 1;
      EvControlCheck "ctx" "a"; EvSleep 1;
      EvControlCheck "ctx" "a"; EvSleep 1;
      EvControlCheck "ctx" "a"]).
Proof. vm_compute. reflexivity. Qed.

(** A pending "resume" is not seen by an action that has timed out. *)
Example action_wait_timed_out :
  result_of (action_wait 10 act_t w_requests) = OutOfFuel.
Proof. vm_compute. reflexivity. Qed.

(** ** ThreadGroupManager *)

Section ManagerFacts.

(** A dict holds at most one value per key. *)
Lemma filter_key_length {V : Type} (k : string) (l : list (string * V)) :
  NoDup l.*1 → (length (filter (λ kv, kv.1 = k) l) ≤ 1)%nat.
Proof.
  induction l as [|[k' v] l IH]; intros Hnd; [simpl; lia|].
  apply NoDup_cons in Hnd as [Hnotin Hnd].
  destruct (decide (k' = k)) as [->|Hne].
  - rewrite filter_cons_True by reflexivity.
    assert (filter (λ kv : string * V, kv.1 = k) l = []) as ->.
    { destruct (filter _ l) as [|[k2 v2] rest] eqn:Hf; [reflexivity|].
      exfalso. apply Hnotin.
      assert ((k2, v2) ∈ filter (λ kv : string * V, kv.1 = k) l) as Hin
        by (rewrite Hf; left).
      apply list_elem_of_filter in Hin as [Hk Hin]. simpl in Hk. subst k2.
      apply list_elem_of_fmap. exists (k, v2). split; [reflexivity|exact Hin]. }
    simpl. lia.
  - rewrite filter_cons_False by (simpl; congruence). apply IH, Hnd.
Qed.

Lemma handles_of_length (self : ThreadGroupManager) (action_id : string) :
  (length (handles_of self action_id) ≤ 1)%nat.
Proof.
  unfold handles_of. rewrite length_fmap.
  apply filter_key_length, NoDup_fst_map_to_list.
Qed.

Lemma handles_of_lookup (self : ThreadGroupManager) (action_id : string)
    (th : thread) :
  th ∈ handles_of self action_id ↔ threads self !! action_id = Some th.
Proof.
  unfold handles_of. rewrite list_elem_of_fmap. split.
  - intros ([k v] & -> & Hin).
    apply list_elem_of_filter in Hin as [Hk Hin]. simpl in Hk. subst k.
    by apply elem_of_map_to_list in Hin.
  - intros Hlk. exists (action_id, th). split; [reflexivity|].
    apply list_elem_of_filter. split; [reflexivity|].
    by apply elem_of_map_to_list.
Qed.

(** The linked callbacks only remove entries of the map, and leave the
    group as it is. *)
Lemma run_links_shrinks (cbs : list callback) :
  ∀ self : ThreadGroupManager,
    group (run_links cbs self).2 = group self ∧
    ∀ k v, threads (run_links cbs self).2 !! k = Some v →
           threads self !! k = Some v.
Proof.
  induction cbs as [|[ctx action] cbs IH]; intros self; [by split|].
  simpl. unfold release.
  destruct (threads self !! id action) as [th|] eqn:Hlk; [|by split].
  destruct (IH {| threads := delete (id action) (threads self);
                  group := group self |}) as [Hg Hsub].
  split; [exact Hg|].
  intros k v Hkv. apply Hsub in Hkv. simpl in Hkv.
  apply lookup_delete_Some in Hkv as [_ Hkv]. exact Hkv.
Qed.

(** After the closure [release] of an action has been called, the map
    has no entry for the id of the action. *)
Lemma run_links_release (ctx : Ctx) (action : Action)
    (self : ThreadGroupManager) :
  threads (run_links [CbRelease ctx action] self).2 !! id action = None.
Proof.
  simpl. unfold release.
  destruct (threads self !! id action) as [th|] eqn:Hlk; simpl.
  - apply lookup_delete_eq.
  - exact Hlk.
Qed.

Lemma tgm_inv_init (conf : Conf) : tgm_inv (ThreadGroupManager_init conf).
Proof.
  unfold tgm_inv, ThreadGroupManager_init, add_timer. simpl.
  split; [|split].
  - intros action_id th Hlk. rewrite lookup_empty in Hlk. discriminate.
  - intros th gt Hlk. rewrite lookup_empty in Hlk. discriminate.
  - intros th Hin. by apply not_elem_of_empty in Hin.
Qed.

Lemma tgm_inv_spawn (self : ThreadGroupManager) (ctx : Ctx)
    (action : Action) :
  tgm_inv self → tgm_inv (start_action_thread self ctx action).2.
Proof.
  intros (Hmap & Hlive & Hfin).
  unfold tgm_inv, start_action_thread, start, ThreadGroup_add_thread,
    Thread_link. simpl.
  set (th := tg_spawned (group self)).
  split; [|split].
  - intros action_id th0 Hlk.
    destruct (decide (id action = action_id)) as [<-|Hne].
    + rewrite lookup_insert_eq in Hlk. injection Hlk as <-.
      exists ctx, action. split; [reflexivity|].
      rewrite lookup_alter_eq, lookup_insert_eq. reflexivity.
    + rewrite lookup_insert_ne in Hlk by exact Hne.
      destruct (Hmap _ _ Hlk) as (ctx0 & a0 & Hid & Hgt).
      exists ctx0, a0. split; [exact Hid|].
      destruct (Hlive _ _ Hgt) as [Hlt _].
      rewrite lookup_alter_ne, lookup_insert_ne by (unfold th; lia).
      exact Hgt.
  - intros th0 gt Hgt.
    destruct (decide (th = th0)) as [<-|Hne].
    + split; [lia|]. intros Hin. apply Hfin in Hin. unfold th in Hin. lia.
    + rewrite lookup_alter_ne, lookup_insert_ne in Hgt by exact Hne.
      destruct (Hlive _ _ Hgt) as [Hlt Hnf]. split; [lia|exact Hnf].
  - intros th0 Hin. apply Hfin in Hin. lia.
Qed.

Lemma tgm_inv_exit (self : ThreadGroupManager) (th : thread) :
  tgm_inv self → tgm_inv (thread_exit th self).2.
Proof.
  intros (Hmap & Hlive & Hfin). unfold thread_exit.
  destruct (tg_live (group self) !! th) as [gt|] eqn:Hth;
    [|exact (conj Hmap (conj Hlive Hfin))].
  set (self1 := {| threads := threads self; group := _ |}).
  destruct (run_links_shrinks (gt_links gt) self1) as [Hg Hsub].
  destruct (Hlive _ _ Hth) as [Hlt Hnf].
  unfold tgm_inv. rewrite Hg. simpl.
  split; [|split].
  - intros action_id th0 Hlk.
    pose proof (Hsub _ _ Hlk) as Hlk0. simpl in Hlk0.
    destruct (Hmap _ _ Hlk0) as (ctx0 & a0 & Hid & Hgt).
    exists ctx0, a0. split; [exact Hid|].
    destruct (decide (th0 = th)) as [->|Hne].
    + exfalso. rewrite Hth in Hgt. injection Hgt as ->.
      cbn [gt_links] in Hlk. subst action_id.
      pose proof (run_links_release ctx0 a0 self1) as Hnone.
      rewrite Hnone in Hlk. discriminate.
    + rewrite lookup_delete_ne by congruence. exact Hgt.
  - intros th0 gt0 Hgt.
    apply lookup_delete_Some in Hgt as [Hne Hgt].
    destruct (Hlive _ _ Hgt) as [Hlt0 Hnf0]. split; [exact Hlt0|].
    intros Hin. apply elem_of_union in Hin as [Hin|Hin].
    + apply elem_of_singleton in Hin. congruence.
    + contradiction.
  - intros th0 Hin. apply elem_of_union in Hin as [Hin|Hin].
    + apply elem_of_singleton in Hin. subst th0. exact Hlt.
    + by apply Hfin.
Qed.

Lemma tgm_inv_step (self : ThreadGroupManager) (e : tgm_event) :
  tgm_inv self → tgm_inv (tgm_step self e).
Proof.
  destruct e as [ctx action|th]; simpl.
  - apply tgm_inv_spawn.
  - apply tgm_inv_exit.
Qed.

Lemma tgm_inv_run (es : list tgm_event) :
  ∀ self, tgm_inv self → tgm_inv (tgm_run es self).
Proof.
  induction es as [|e es IH]; intros self Hinv; [exact Hinv|].
  simpl. apply IH, tgm_inv_step, Hinv.
Qed.

(** C7.  At every instant of the life of a manager, that is after any
    sequence of spawns ([start_action_thread]) and task exits (with
    their completion callbacks) from its creation, the running-task map
    holds at most one handle per action id, and every handle it holds
    is the handle of a live task: none is the handle of a task that has
    exited and whose completion callback has been called. *)
Theorem running_task_map_invariant (conf : Conf) (es : list tgm_event) :
  let self := tgm_run es (ThreadGroupManager_init conf) in
  (∀ action_id, (length (handles_of self action_id) ≤ 1)%nat) ∧
  (∀ action_id th, th ∈ handles_of self action_id →
     is_Some (tg_live (group self) !! th) ∧
     th ∉ tg_finished (group self)).
Proof.
  intros self. split.
  - intros action_id. apply handles_of_length.
  - intros action_id th Hin. apply handles_of_lookup in Hin.
    destruct (tgm_inv_run es _ (tgm_inv_init conf)) as (Hmap & Hlive & _).
    fold self in Hmap, Hlive.
    destruct (Hmap _ _ Hin) as (ctx & action & _ & Hgt).
    split; [eauto|]. by destruct (Hlive _ _ Hgt).
Qed.

End ManagerFacts.

(** A spawn registers the handle and its link; the exit of the task
    removes the entry. *)
Example spawn_then_exit :
  let self := ThreadGroupManager_init conf60 in
  let self1 := tgm_run [Spawn "ctx" act_a] self in
  let self2 := tgm_run [Spawn "ctx" act_a; Exit O] self in
  threads self1 !! "a" = Some O ∧
  tg_live (group self1) !! O =
    Some {| gt_task := TaskActionProc "ctx" act_a;
            gt_links := [CbRelease "ctx" act_a] |} ∧
  threads self2 !! "a" = None ∧
  tg_finished (group self2) = {[ O ]}.
Proof. vm_compute. repeat split; reflexivity. Qed.

(** Two tasks spawned for one action id: the second handle replaces the
    first in the map; the exit of the first task pops the entry of the
    second, and the [pop] of the second then raises [KeyError]. *)
Example spawn_twice_same_action :
  let self := tgm_run [Spawn "ctx" act_a; Spawn "ctx" act_a]
                      (ThreadGroupManager_init conf60) in
  handles_of self "a" = [1%nat] ∧
  thread_exit O self =
    (Ret tt, tgm_run [Spawn "ctx" act_a; Spawn "ctx" act_a; Exit O]
                     (ThreadGroupManager_init conf60)) ∧
  handles_of (thread_exit O self).2 "a" = [] ∧
  (thread_exit 1%nat (thread_exit O self).2).1 = Raise (KeyError "a").
Proof. vm_compute. repeat split; reflexivity. Qed.

(** C9, the counterexample.  With [cfg.CONF.periodic_interval] at 60,
    [add_timer(5, tick)] registers a timer of period 60, not 5. *)
Lemma add_timer_ignores_its_interval :
  timer_interval <$>
    last_timer (add_timer conf60 (ThreadGroupManager_init conf60) 5 "tick")
    = Some 60 ∧
  last_timer (add_timer conf60 (ThreadGroupManager_init conf60) 5 "tick")
    ≠ Some {| timer_interval := 5; timer_callback := "tick" |}.
Proof. split; [vm_compute; reflexivity | vm_compute; discriminate]. Qed.

(** C9, as amended.  [add_timer(interval, func)] registers one more
    periodic task in the group, which runs [func] with the period
    [cfg.CONF.periodic_interval], whatever [interval] is; the timers
    registered before and the running-task map are unchanged. *)
Theorem add_timer_period_from_conf (conf : Conf) (self : ThreadGroupManager)
    (interval : Z) (func : string) :
  tg_timers (group (add_timer conf self interval func)) =
    tg_timers (group self) ++
    [{| timer_interval := periodic_interval conf; timer_callback := func |}] ∧
  last_timer (add_timer conf self interval func) =
    Some {| timer_interval := periodic_interval conf;
            timer_callback := func |} ∧
  threads (add_timer conf self interval func) = threads self.
Proof.
  unfold last_timer, add_timer, ThreadGroup_add_timer. simpl.
  repeat split. apply last_snoc.
Qed.

(** The manager starts with the keep-alive timer, whose period is the
    configured one. *)
Example init_service_timer :
  tg_timers (group (ThreadGroupManager_init conf60)) =
    [{| timer_interval := 60; timer_callback := _service_task |}].
Proof. reflexivity. Qed.


(** * Further properties *)

(** ** start_action *)

Section StartActionMore.
Context {W : Type} `{Env W}.

(** When the lock is acquired and the manager hands back a handle,
    [start_action] returns [True] with the lock still held: its calls are
    the load, the acquire with the current time as timestamp, and the
    spawn of the loaded action stamped with that same time as
    [start_time]; it does not call [action_release]. *)
Theorem start_action_success_keeps_lock (ctx : Ctx)
    (action_id engine_id : string)
    (tgm : Ctx → Action → M W (option thread)) (w w1 w2 : W)
    (th : thread) (t : list event) :
  env_acquire ctx action_id engine_id (env_wallclock w) w = (true, w1) →
  tgm ctx (set_start_time (env_load ctx action_id w) (env_wallclock w)) w1
    = (Ret (Some th), w2, t) →
  start_action ctx action_id engine_id tgm w =
    (Ret (PyBool true), w2,
     [EvLoad ctx action_id;
      EvAcquire ctx action_id engine_id (env_wallclock w);
      EvStartActionThread ctx (id (env_load ctx action_id w))] ++ t).
Proof.
  intros Hacq Hspawn.
  pose proof (start_action_run ctx action_id engine_id tgm w) as Hrun.
  cbv zeta in Hrun. rewrite Hacq in Hrun. simpl in Hrun.
  rewrite Hspawn in Hrun. exact Hrun.
Qed.

(** [start_action] returns [True] exactly when the acquire succeeded and
    the manager returned a handle. *)
Theorem start_action_true_iff (ctx : Ctx) (action_id engine_id : string)
    (tgm : Ctx → Action → M W (option thread)) (w : W) :
  let now := env_wallclock w in
  let locked := env_acquire ctx action_id engine_id now w in
  let action := set_start_time (env_load ctx action_id w) now in
  result_of (start_action ctx action_id engine_id tgm w) = Ret (PyBool true)
  ↔ locked.1 = true ∧
    ∃ th, result_of (tgm ctx action locked.2) = Ret (Some th).
Proof.
  cbv zeta.
  pose proof (start_action_run ctx action_id engine_id tgm w) as Hrun.
  cbv zeta in Hrun. rewrite Hrun. clear Hrun.
  destruct (env_acquire ctx action_id engine_id (env_wallclock w) w)
    as [[|] w1]; simpl.
  - destruct (result_of (tgm ctx _ w1)) as [[th|]|e|]; simpl; split.
    + intros _. split; [reflexivity|]. by exists th.
    + reflexivity.
    + discriminate.
    + intros [_ [th Hth]]. discriminate.
    + discriminate.
    + intros [_ [th Hth]]. discriminate.
    + discriminate.
    + intros [_ [th Hth]]. discriminate.
  - split; [discriminate|]. intros [Hf _]. discriminate.
Qed.

(** An exception raised by the manager after the lock was acquired leaves
    [start_action] as it is, and the lock is not released on the way. *)
Theorem start_action_spawn_raises_keeps_lock (ctx : Ctx)
    (action_id engine_id : string)
    (tgm : Ctx → Action → M W (option thread)) (w w1 w2 : W)
    (e : exn) (t : list event) :
  env_acquire ctx action_id engine_id (env_wallclock w) w = (true, w1) →
  tgm ctx (set_start_time (env_load ctx action_id w) (env_wallclock w)) w1
    = (Raise e, w2, t) →
  start_action ctx action_id engine_id tgm w =
    (Raise e, w2,
     [EvLoad ctx action_id;
      EvAcquire ctx action_id engine_id (env_wallclock w);
      EvStartActionThread ctx (id (env_load ctx action_id w))] ++ t).
Proof.
  intros Hacq Hspawn.
  pose proof (start_action_run ctx action_id engine_id tgm w) as Hrun.
  cbv zeta in Hrun. rewrite Hacq in Hrun. simpl in Hrun.
  rewrite Hspawn in Hrun. exact Hrun.
Qed.

End StartActionMore.

Lemma start_action_success_keeps_lock_witness :
  start_action "ctx" "a" "engine-1" tgm_ok rw_init =
    (Ret (PyBool true),
     mkRefWorld 100 [] {["a" := "engine-1"]} ∅ ∅ [],
     [EvLoad "ctx" "a"; EvAcquire "ctx" "a" "engine-1" 100;
      EvStartActionThread "ctx" "a"]).
Proof.
  rewrite (start_action_success_keeps_lock "ctx" "a" "engine-1" tgm_ok
             rw_init (mkRefWorld 100 [] {["a" := "engine-1"]} ∅ ∅ [])
             (mkRefWorld 100 [] {["a" := "engine-1"]} ∅ ∅ []) O []).
  - reflexivity.
  - reflexivity.
  - reflexivity.
Defined.

Lemma start_action_spawn_raises_keeps_lock_witness :
  start_action "ctx" "a" "engine-1" tgm_broken rw_init =
    (Raise AttributeError,
     mkRefWorld 100 [] {["a" := "engine-1"]} ∅ ∅ [],
     [EvLoad "ctx" "a"; EvAcquire "ctx" "a" "engine-1" 100;
      EvStartActionThread "ctx" "a"]).
Proof.
  rewrite (start_action_spawn_raises_keeps_lock "ctx" "a" "engine-1"
             tgm_broken rw_init
             (mkRefWorld 100 [] {["a" := "engine-1"]} ∅ ∅ [])
             (mkRefWorld 100 [] {["a" := "engine-1"]} ∅ ∅ [])
             AttributeError []).
  - reflexivity.
  - reflexivity.
  - reflexivity.
Defined.

(** ** action_cancelled, action_suspended, action_resumed *)

Section PredicatesMore.
Context {W : Type} `{Env W}.

(** The three predicates compare the answer of [action_control_flag] with
    their own constant. *)
Lemma flag_test_run (action : Action) (w : W) (c : string) :
  c ≠ ACTION_TIMEOUT →
  (flag <- action_control_flag action ;;
   if decide (flag = Some c) then ret true else ret false) w =
  (Ret (negb (spec_has_timed_out action w) &&
        bool_decide (env_control_check (context action) (id action) w
                     = Some c)),
   w,
   if spec_has_timed_out action w then []
   else [EvControlCheck (context action) (id action)]).
Proof.
  intros Hc. unfold bind. rewrite action_control_flag_run.
  destruct (spec_has_timed_out action w); simpl.
  - destruct (decide (Some ACTION_TIMEOUT = Some c)) as [Heq|_];
      [congruence | reflexivity].
  - destruct (decide (env_control_check (context action) (id action) w
                      = Some c)) as [Heq|Hne].
    + rewrite bool_decide_eq_true_2 by exact Heq. reflexivity.
    + rewrite bool_decide_eq_false_2 by exact Hne. reflexivity.
Qed.

(** Each predicate answers [True] exactly when the action has not timed
    out and the flag pending in the store is its own; it answers [False]
    otherwise, raises nothing and leaves the world as it is. *)
Theorem control_predicates_answer (action : Action) (w : W) :
  let fresh := negb (spec_has_timed_out action w) in
  let stored := env_control_check (context action) (id action) w in
  (result_of (action_cancelled action w)
     = Ret (fresh && bool_decide (stored = Some ACTION_CANCEL)) ∧
   result_of (action_suspended action w)
     = Ret (fresh && bool_decide (stored = Some ACTION_SUSPEND)) ∧
   result_of (action_resumed action w)
     = Ret (fresh && bool_decide (stored = Some ACTION_RESUME))) ∧
  world_of (action_cancelled action w) = w ∧
  world_of (action_suspended action w) = w ∧
  world_of (action_resumed action w) = w.
Proof.
  cbv zeta. unfold action_cancelled, action_suspended, action_resumed.
  rewrite !flag_test_run by discriminate. repeat split.
Qed.

(** At any moment at most one of the three predicates answers [True]. *)
Theorem control_predicates_exclusive (action : Action) (w : W) :
  ¬ (result_of (action_cancelled action w) = Ret true ∧
     result_of (action_suspended action w) = Ret true) ∧
  ¬ (result_of (action_cancelled action w) = Ret true ∧
     result_of (action_resumed action w) = Ret true) ∧
  ¬ (result_of (action_suspended action w) = Ret true ∧
     result_of (action_resumed action w) = Ret true).
Proof.
  unfold action_cancelled, action_suspended, action_resumed.
  rewrite !flag_test_run by discriminate. unfold result_of. simpl.
  destruct (spec_has_timed_out action w); simpl;
    [repeat split; intros [Ha _]; discriminate|].
  repeat split; intros [Ha Hb];
    injection Ha as Ha; injection Hb as Hb;
    apply bool_decide_eq_true_1 in Ha, Hb; rewrite Ha in Hb; discriminate.
Qed.

(** Once the timeout of an action is exceeded, a pending cancel, suspend
    or resume request is not seen any more: the three predicates answer
    [False] without reading the store. *)
Theorem timed_out_hides_control_flags (action : Action) (w : W) (t : Z) :
  timeout action = Some t →
  env_wallclock w - start_time action > t →
  action_cancelled action w = (Ret false, w, []) ∧
  action_suspended action w = (Ret false, w, []) ∧
  action_resumed action w = (Ret false, w, []).
Proof.
  intros Ht Hlapse.
  assert (spec_has_timed_out action w = true) as Hto.
  { unfold spec_has_timed_out. rewrite Ht.
    by apply bool_decide_eq_true_2. }
  unfold action_cancelled, action_suspended, action_resumed.
  rewrite !flag_test_run by discriminate. rewrite Hto. repeat split.
Qed.

End PredicatesMore.

Lemma timed_out_hides_control_flags_witness :
  rw_control w_cancel_pending !! "a" = Some ACTION_CANCEL ∧
  action_cancelled act_t w_cancel_pending = (Ret false, w_cancel_pending, []).
Proof.
  split; [reflexivity|].
  apply (timed_out_hides_control_flags act_t w_cancel_pending 5).
  - reflexivity.
  - vm_compute. reflexivity.
Defined.

(** A request written by an entry point is seen by its predicate, on the
    reference store. *)
Example cancel_action_then_cancelled :
  result_of (action_cancelled act_a
               (world_of (cancel_action "ctx" "a" rw_init))) = Ret true ∧
  result_of (action_suspended act_a
               (world_of (cancel_action "ctx" "a" rw_init))) = Ret false ∧
  result_of (action_resumed act_a
               (world_of (resume_action "ctx" "a"
                  (world_of (suspend_action "ctx" "a" rw_init))))) = Ret true.
Proof. vm_compute. repeat split; reflexivity. Qed.

(** ** action_wait on an action that has timed out *)

Section WaitMore.
Context {W : Type} `{Env W}.

Lemma clock_after_sleeps (n : nat) : ∀ w : W,
  (∀ w', env_wallclock w' ≤ env_wallclock (env_sleep 1 w')) →
  env_wallclock w ≤ env_wallclock (after_sleeps n w).
Proof.
  induction n as [|n IH]; intros w Hmono; simpl; [lia|].
  specialize (IH (env_sleep 1 w) Hmono). specialize (Hmono w). lia.
Qed.

Lemma timed_out_not_resumed (action : Action) (w : W) :
  spec_has_timed_out action w = true → reports_resume action w = false.
Proof.
  intros Hto. unfold reports_resume, action_resumed.
  rewrite flag_test_run by discriminate. rewrite Hto. reflexivity.
Qed.

(** With a clock that does not go back while the task is suspended,
    [action_wait] on an action whose timeout is exceeded never returns,
    whatever requests, a resume among them, reach the store: at every
    poll the timeout is reported, not the flag. *)
Theorem action_wait_timed_out_never_returns (action : Action) (w : W)
    (t : Z) (fuel : nat) :
  timeout action = Some t →
  env_wallclock w - start_time action > t →
  (∀ w', env_wallclock w' ≤ env_wallclock (env_sleep 1 w')) →
  result_of (action_wait fuel action w) = OutOfFuel.
Proof.
  intros Ht Hlapse Hmono.
  apply action_wait_keeps_waiting. intros k _.
  apply timed_out_not_resumed. unfold spec_has_timed_out. rewrite Ht.
  apply bool_decide_eq_true_2.
  pose proof (clock_after_sleeps k w Hmono). lia.
Qed.

End WaitMore.

Lemma action_wait_timed_out_never_returns_witness :
  result_of (action_wait 25 act_t w_requests) = OutOfFuel.
Proof.
  apply (action_wait_timed_out_never_returns act_t w_requests 5 25).
  - reflexivity.
  - vm_compute. reflexivity.
  - intros w'. simpl. unfold rw_sleep, rw_set_control.
    destruct (rw_requests w') as [|[action_id flag] rest]; simpl; lia.
Defined.

(** ** ActionProc, whatever the step answers *)

Section RunnerMore.
Context {W : Type} `{Env W}.

(** The loop only invokes the step, at most [fuel] times, and ends with
    an outcome other than RETRY or at its bound. *)
Lemma ActionProc_loop_shape (fuel : nat) : ∀ (action : Action) (r : Result)
    (w : W),
  ∃ k, (k ≤ fuel)%nat ∧
    trace_of (ActionProc_loop fuel action r w)
      = repeat (EvExecute (id action)) k ∧
    (result_of (ActionProc_loop fuel action r w) = OutOfFuel ∨
     ∃ r', result_of (ActionProc_loop fuel action r w) = Ret r' ∧
           r' ≠ RES_RETRY).
Proof.
  induction fuel as [|fuel IH]; intros action r w; simpl;
    destruct (decide (r = RES_RETRY)) as [Hr|Hr];
    try (exists O; split; [lia|]; split; [reflexivity|]; eauto; fail).
  unfold bind, execute.
  destruct (env_execute action w) as [r1 w1].
  destruct (IH action r1 w1) as (k & Hk & Htr & Hres).
  destruct (ActionProc_loop fuel action r1 w1) as [[r2 w2] t2].
  unfold trace_of, result_of in *. simpl in *.
  exists (S k). split; [lia|]. split; [by rewrite Htr|exact Hres].
Qed.

(** [ActionProc] in terms of its loop. *)
Lemma ActionProc_unfold (fuel : nat) (ctx : Ctx) (action : Action)
    (wait_time : option Z) (w : W) :
  ActionProc fuel ctx action wait_time w =
  let l := ActionProc_loop fuel action (outcome_at 0 action w)
                           (after_executes 1 action w) in
  match result_of l with
  | Ret r =>
      let timestamp := env_wallclock (world_of l) in
      (Ret tt, spec_persist_world r ctx (id action) timestamp (world_of l),
       EvExecute (id action) ::
       trace_of l ++ spec_persist_events r ctx (id action) timestamp)
  | Raise e => (Raise e, world_of l, EvExecute (id action) :: trace_of l)
  | OutOfFuel => (OutOfFuel, world_of l, EvExecute (id action) :: trace_of l)
  end.
Proof.
  unfold ActionProc.
  rewrite (bind_run _ _ _ _ _ _ (execute_run action w)).
  cbv zeta. unfold bind, wallclock.
  destruct (ActionProc_loop fuel action (outcome_at 0 action w)
              (after_executes 1 action w)) as [[[r|e|] w2] t2];
    unfold result_of, world_of, trace_of; simpl; try reflexivity.
  destruct r;
    repeat (destruct (decide _); try discriminate; try contradiction);
    simpl; rewrite ?app_nil_r; reflexivity.
Qed.

(** Every run of [ActionProc], complete or not, invokes the step at
    least once and at most once more than the bound of its loop, then
    makes at most one call, a status write for the action; a run that
    has not ended writes nothing.  It never sleeps and touches neither
    the lock nor the control flag of the action, and it raises nothing. *)
Theorem ActionProc_trace_shape (fuel : nat) (ctx : Ctx) (action : Action)
    (wait_time : option Z) (w : W) :
  ∃ (k : nat) (writes : list event),
    trace_of (ActionProc fuel ctx action wait_time w) =
      repeat (EvExecute (id action)) (S k) ++ writes ∧
    (k ≤ fuel)%nat ∧
    (writes = [] ∨
     ∃ timestamp,
       result_of (ActionProc fuel ctx action wait_time w) = Ret tt ∧
       (writes = [EvMarkFailed ctx (id action) timestamp] ∨
        writes = [EvMarkSucceeded ctx (id action) timestamp] ∨
        writes = [EvMarkCancelled ctx (id action) timestamp])) ∧
    (result_of (ActionProc fuel ctx action wait_time w) = Ret tt ∨
     result_of (ActionProc fuel ctx action wait_time w) = OutOfFuel).
Proof.
  rewrite ActionProc_unfold. cbv zeta.
  destruct (ActionProc_loop_shape fuel action (outcome_at 0 action w)
              (after_executes 1 action w)) as (k & Hk & Htr & Hres).
  rewrite Htr.
  destruct Hres as [Hres|(r' & Hres & Hr')]; rewrite Hres.
  - exists k, []. unfold trace_of, result_of. simpl. rewrite app_nil_r.
    repeat split; auto.
  - exists k, (spec_persist_events r' ctx (id action)
                 (env_wallclock
                    (world_of (ActionProc_loop fuel action
                                 (outcome_at 0 action w)
                                 (after_executes 1 action w))))).
    unfold trace_of, result_of. simpl.
    split; [reflexivity|]. split; [exact Hk|]. split; [|by left].
    destruct r'; simpl; eauto 10.
Qed.

(** The loop against a step that answers RETRY forever, in full. *)
Lemma ActionProc_loop_retry_run (fuel : nat) : ∀ (action : Action) (w : W),
  (∀ k, outcome_at k action w = RES_RETRY) →
  ActionProc_loop fuel action (outcome_at 0 action w)
                  (after_executes 1 action w) =
  (OutOfFuel, after_executes (S fuel) action w,
   repeat (EvExecute (id action)) fuel).
Proof.
  induction fuel as [|fuel IH]; intros action w Hretry.
  - simpl. rewrite (Hretry O). reflexivity.
  - simpl ActionProc_loop. rewrite (Hretry O).
    destruct (decide (RES_RETRY = RES_RETRY)) as [_|Hne]; [|contradiction].
    rewrite (bind_run _ _ _ _ _ _ (execute_run action _)).
    assert (ActionProc_loop fuel action
              (outcome_at 0 action (after_executes 1 action w))
              (after_executes 1 action (after_executes 1 action w)) =
            (OutOfFuel, after_executes (S (S fuel)) action w,
             repeat (EvExecute (id action)) fuel)) as Hrest.
    { apply (IH action (after_executes 1 action w)).
      intros k. rewrite <- outcome_at_S. apply Hretry. }
    cbn [after_executes] in Hrest |- *. rewrite Hrest. reflexivity.
Qed.

(** The retry loop has no cutoff: against a step that answers RETRY at
    every invocation, [ActionProc] does not return within any bound; it
    invokes the step once more than the bound allows turns of the loop,
    and writes no status. *)
Theorem ActionProc_retries_without_bound (fuel : nat) (ctx : Ctx)
    (action : Action) (wait_time : option Z) (w : W) :
  (∀ k, outcome_at k action w = RES_RETRY) →
  ActionProc fuel ctx action wait_time w =
    (OutOfFuel, after_executes (S fuel) action w,
     repeat (EvExecute (id action)) (S fuel)).
Proof.
  intros Hretry. unfold ActionProc.
  rewrite (bind_run _ _ _ _ _ _ (execute_run action w)).
  unfold bind. rewrite (ActionProc_loop_retry_run fuel action w Hretry).
  reflexivity.
Qed.

End RunnerMore.

Lemma ActionProc_retries_without_bound_witness :
  ActionProc 4 "ctx" act_a (Some 1) (mkRetryWorld 0 0) =
    (OutOfFuel, mkRetryWorld 0 5, repeat (EvExecute "a") 5).
Proof.
  rewrite (ActionProc_retries_without_bound 4 "ctx" act_a (Some 1)
             (mkRetryWorld 0 0)).
  - reflexivity.
  - intros k. reflexivity.
Defined.

(** ** ThreadGroupManager: spawns and exits *)

Section ManagerMore.

(** [start_action_thread] in one step. *)
Lemma start_action_thread_run (self : ThreadGroupManager) (ctx : Ctx)
    (action : Action) :
  let th := tg_spawned (group self) in
  start_action_thread self ctx action =
  (th, {| threads := <[id action := th]> (threads self);
          group := {| tg_spawned := S th;
                      tg_live := <[th := {| gt_task := TaskActionProc ctx action;
                                            gt_links := [CbRelease ctx action] |}]>
                                 (tg_live (group self));
                      tg_finished := tg_finished (group self);
                      tg_timers := tg_timers (group self) |} |}).
Proof.
  cbv zeta. unfold start_action_thread, start, ThreadGroup_add_thread,
    Thread_link. simpl.
  f_equal. f_equal. f_equal.
  apply map_eq. intros i.
  destruct (decide (i = tg_spawned (group self))) as [->|Hne].
  - rewrite lookup_alter_eq, !lookup_insert_eq. reflexivity.
  - rewrite lookup_alter_ne, !lookup_insert_ne by congruence. reflexivity.
Qed.

(** A spawn followed by the exit of the spawned task: the map holds the
    new handle under the id of the action in between; the exit calls the
    closure [release] without error and leaves the map without an entry
    for that id, so that an entry that the map held for the same id before
    the spawn is gone; the task has moved from the live to the finished
    ones. *)
Theorem spawn_exit_round_trip (self : ThreadGroupManager) (ctx : Ctx)
    (action : Action) :
  let spawned := start_action_thread self ctx action in
  let exited := thread_exit spawned.1 spawned.2 in
  threads spawned.2 !! id action = Some spawned.1 ∧
  exited.1 = Ret tt ∧
  threads exited.2 = delete (id action) (threads self) ∧
  tg_live (group exited.2) = delete spawned.1 (tg_live (group self)) ∧
  tg_finished (group exited.2) = {[spawned.1]} ∪ tg_finished (group self).
Proof.
  cbv zeta. rewrite start_action_thread_run. cbv zeta. simpl.
  split; [apply lookup_insert_eq|].
  unfold thread_exit. simpl. rewrite lookup_insert_eq. simpl.
  unfold release. simpl. rewrite lookup_insert_eq. simpl.
  rewrite delete_insert_eq. 
  repeat split. rewrite delete_insert_eq. reflexivity.
Qed.


(** The exit of a live task whose only link is the closure [release]. *)
Lemma thread_exit_released (th : thread) (self : ThreadGroupManager)
    (t : task) (ctx : Ctx) (action : Action) :
  tg_live (group self) !! th
    = Some {| gt_task := t; gt_links := [CbRelease ctx action] |} →
  thread_exit th self =
  match threads self !! id action with
  | Some _ => (Ret tt, {| threads := delete (id action) (threads self);
                          group := exited_group th (group self) |})
  | None => (Raise (KeyError (id action)),
             {| threads := threads self;
                group := exited_group th (group self) |})
  end.
Proof.
  intros Hlive. unfold thread_exit. rewrite Hlive. simpl. unfold release.
  simpl. destruct (threads self !! id action); reflexivity.
Qed.

(** Two tasks spawned for actions of one id get distinct handles, and
    the map keeps the second handle only.  The exit of the first task
    pops that entry, although the second task is still live, and the
    [pop] at the exit of the second task then raises [KeyError]; in the
    other order of exits it is the first task whose [pop] raises
    [KeyError]. *)
Theorem second_exit_raises_KeyError (self : ThreadGroupManager)
    (ctx1 ctx2 : Ctx) (a1 a2 : Action) :
  id a1 = id a2 →
  let first := start_action_thread self ctx1 a1 in
  let second := start_action_thread first.2 ctx2 a2 in
  let th1 := first.1 in
  let th2 := second.1 in
  let self2 := second.2 in
  th1 ≠ th2 ∧
  threads self2 !! id a1 = Some th2 ∧
  (thread_exit th1 self2).1 = Ret tt ∧
  threads (thread_exit th1 self2).2 !! id a1 = None ∧
  is_Some (tg_live (group (thread_exit th1 self2).2) !! th2) ∧
  (thread_exit th2 (thread_exit th1 self2).2).1 = Raise (KeyError (id a2)) ∧
  (thread_exit th2 self2).1 = Ret tt ∧
  (thread_exit th1 (thread_exit th2 self2).2).1 = Raise (KeyError (id a1)).
Proof.
  intros Hid. cbv zeta.
  rewrite (start_action_thread_run self). cbv zeta. cbn [fst snd].
  rewrite start_action_thread_run. cbv zeta.
  cbn [fst snd group tg_spawned threads tg_live tg_finished tg_timers].
  set (n := tg_spawned (group self)).
  set (self2 := {| threads := _; group := _ |}).
  assert (n ≠ S n) as Hn by lia.
  assert (tg_live (group self2) !! n =
          Some {| gt_task := TaskActionProc ctx1 a1;
                  gt_links := [CbRelease ctx1 a1] |}) as Hl1.
  { simpl. rewrite lookup_insert_ne, lookup_insert_eq by lia. reflexivity. }
  assert (tg_live (group self2) !! S n =
          Some {| gt_task := TaskActionProc ctx2 a2;
                  gt_links := [CbRelease ctx2 a2] |}) as Hl2.
  { simpl. rewrite lookup_insert_eq. reflexivity. }
  assert (@eq (option thread) (threads self2 !! id a1) (Some (S n)))
    as Hk1.
  { simpl. rewrite Hid, lookup_insert_eq. reflexivity. }
  assert (@eq (option thread) (threads self2 !! id a2) (Some (S n)))
    as Hk2.
  { rewrite <- Hid. exact Hk1. }
  rewrite (thread_exit_released n self2 _ _ _ Hl1), Hk1.
  rewrite (thread_exit_released (S n) self2 _ _ _ Hl2), Hk2.
  cbn [fst snd threads group].
  split; [exact Hn|]. split; [exact Hk1|]. split; [reflexivity|].
  split; [apply lookup_delete_eq|].
  split.
  { simpl. rewrite lookup_delete_ne, lookup_insert_eq by lia. eauto. }
  split.
  { erewrite thread_exit_released;
      [|simpl; rewrite lookup_delete_ne by lia; exact Hl2].
    cbn [threads]. rewrite <- Hid, lookup_delete_eq. reflexivity. }
  split; [reflexivity|].
  erewrite thread_exit_released;
    [|simpl; rewrite lookup_delete_ne by lia; exact Hl1].
  cbn [threads]. rewrite Hid, lookup_delete_eq. reflexivity.
Qed.
End ManagerMore.

Lemma second_exit_raises_KeyError_witness :
  let self2 := tgm_run [Spawn "ctx" act_a; Spawn "ctx" act_a']
                       (ThreadGroupManager_init conf60) in
  threads self2 !! "a" = Some 1%nat ∧
  (thread_exit 1%nat (thread_exit O self2).2).1 = Raise (KeyError "a") ∧
  (thread_exit O (thread_exit 1%nat self2).2).1 = Raise (KeyError "a").
Proof.
  destruct (second_exit_raises_KeyError (ThreadGroupManager_init conf60)
              "ctx" "ctx" act_a act_a')
    as (_ & Hmap & _ & _ & _ & Hsecond & _ & Hfirst).
  - reflexivity.
  - split; [exact Hmap|]. split; [exact Hsecond | exact Hfirst].
Defined.

Section ManagerRuns.

(** Along the life of a manager every entry of the running-task map is
    consistent with the task it refers to: the task is live, it runs
    [ActionProc] for an action whose id is the key of the entry, and its
    only link is the closure [release] of that action.  No handle is held
    under two action ids, and no task is both live and finished. *)
Theorem running_task_map_consistent (conf : Conf) (es : list tgm_event) :
  let self := tgm_run es (ThreadGroupManager_init conf) in
  (∀ action_id th, threads self !! action_id = Some th →
     ∃ ctx action, id action = action_id ∧
       tg_live (group self) !! th =
       Some {| gt_task := TaskActionProc ctx action;
               gt_links := [CbRelease ctx action] |}) ∧
  (∀ id1 id2 th, threads self !! id1 = Some th →
     threads self !! id2 = Some th → id1 = id2) ∧
  (∀ th, is_Some (tg_live (group self) !! th) →
     th ∉ tg_finished (group self)).
Proof.
  intros self.
  destruct (tgm_inv_run es _ (tgm_inv_init conf)) as (Hmap & Hlive & _).
  fold self in Hmap, Hlive.
  split; [exact Hmap|]. split.
  - intros id1 id2 th H1 H2.
    destruct (Hmap _ _ H1) as (c1 & a1 & <- & Hg1).
    destruct (Hmap _ _ H2) as (c2 & a2 & <- & Hg2).
    rewrite Hg1 in Hg2. by injection Hg2 as _ ->.
  - intros th [gt Hgt]. by destruct (Hlive _ _ Hgt).
Qed.

(** Along the life of a manager, the exit of a task whose handle is in
    the running-task map never fails: its [pop] finds the entry, and the
    exit removes that entry and no other, and moves the task from the
    live to the finished tasks. *)
Theorem registered_task_exit (conf : Conf) (es : list tgm_event)
    (action_id : string) (th : thread) :
  let self := tgm_run es (ThreadGroupManager_init conf) in
  threads self !! action_id = Some th →
  thread_exit th self =
    (Ret tt, {| threads := delete action_id (threads self);
                group := exited_group th (group self) |}).
Proof.
  intros self Hlk.
  destruct (tgm_inv_run es _ (tgm_inv_init conf)) as (Hmap & _ & _).
  fold self in Hmap.
  destruct (Hmap _ _ Hlk) as (ctx & action & <- & Hgt).
  rewrite (thread_exit_released th self _ _ _ Hgt), Hlk. reflexivity.
Qed.

End ManagerRuns.

Lemma registered_task_exit_witness :
  thread_exit O (tgm_run [Spawn "ctx" act_a] (ThreadGroupManager_init conf60))
  = (Ret tt,
     tgm_run [Spawn "ctx" act_a; Exit O] (ThreadGroupManager_init conf60)).
Proof.
  rewrite (registered_task_exit conf60 [Spawn "ctx" act_a] "a" O).
  - vm_compute. reflexivity.
  - reflexivity.
Defined.
